(** * Verification of the ElderMe media-stream server (server.js)

    Shallow embedding of the real-time audio path: the G.711 mu-law codec,
    the paced frame sender, the RMS voice-activity detector, the turn
    segmenter of the WebSocket media handler, the turn orchestrator and the
    idle nudge timer.  The primary source is the Google-TTS revision of
    server.js (the file whose WebSocket loop encodes synthesized PCM to
    mu-law); the ElevenLabs revision has the same codec, sender, handler and
    turn logic. *)

From Stdlib Require Import ZArith QArith Lia.
From stdpp Require Import base list gmap strings.
From Stdlib Require Import Ascii.

Open Scope Z_scope.

(* ------------------------------------------------------------------ *)
(** ** JavaScript 32-bit integer operators *)

Module Js.

(** ToInt32: the wrap-around applied by every bitwise operator. *)
Definition toInt32 (x : Z) : Z :=
  let m := x mod 4294967296 in if m >=? 2147483648 then m - 4294967296 else m.

Definition shl (a n : Z) : Z := toInt32 (Z.shiftl (toInt32 a) (n mod 32)).
Definition sar (a n : Z) : Z := Z.shiftr (toInt32 a) (n mod 32).
Definition band (a b : Z) : Z := Z.land (toInt32 a) (toInt32 b).
Definition bor (a b : Z) : Z := Z.lor (toInt32 a) (toInt32 b).
Definition bnot (a : Z) : Z := Z.lnot (toInt32 a).

End Js.

(* ------------------------------------------------------------------ *)
(** ** Node Buffer primitives (bytes are Z values in 0..255) *)

Definition is_byte (b : Z) : bool := (0 <=? b) && (b <? 256).

(** [buf.writeInt16LE(value, off)]: RangeError unless the value is a
    signed 16-bit integer; otherwise the two little-endian bytes. *)
Definition writeInt16LE (v : Z) : option (list Z) :=
  if (-32768 <=? v) && (v <=? 32767)
  then Some [Z.land v 255; Z.land (Z.shiftr v 8) 255]
  else None.

(** [buf.readInt16LE(off)] on the two bytes at [off], [off+1]. *)
Definition readInt16LE (lo hi : Z) : Z :=
  let u := lo + 256 * hi in if u >=? 32768 then u - 65536 else u.

(* ------------------------------------------------------------------ *)
(** ** Codec: decodeMulawToPcm16, pcm16ToMulawSample, encodePcm16ToMulaw *)

(** Loop body of [decodeMulawToPcm16]: the sample computed for byte [b]. *)
Definition decodeSample (b : Z) : Z :=
  let u := Js.band (Js.bnot b) 0xff in
  let t := Js.shl (Js.band u 0x0f) 3 + 0x84 in
  let t := Js.shl t (Js.sar (Js.band u 0x70) 4) in
  if negb (Js.band u 0x80 =? 0) then 0x84 - t else t - 0x84.

(** [decodeMulawToPcm16]: one [writeInt16LE] per input byte into a buffer
    of twice the input length; [None] is a thrown RangeError. *)
Fixpoint decodeMulawToPcm16 (mu : list Z) : option (list Z) :=
  match mu with
  | [] => Some []
  | b :: rest =>
      match writeInt16LE (decodeSample b) with
      | None => None
      | Some bs =>
          match decodeMulawToPcm16 rest with
          | None => None
          | Some out => Some (bs ++ out)
          end
      end
  end.

(** The exponent search loop of [pcm16ToMulawSample]:
    [for (expMask = 0x4000; (sample & expMask) === 0 && exponent > 0;
          exponent--, expMask >>= 1) {}] *)
Fixpoint expSearch (sample : Z) (exponent : nat) (expMask : Z) : nat :=
  match exponent with
  | O => O
  | S e =>
      if Js.band sample expMask =? 0
      then expSearch sample e (Js.sar expMask 1)
      else exponent
  end.

Definition BIAS : Z := 0x84.

Definition pcm16ToMulawSample (sample0 : Z) : Z :=
  let sign := Js.band (Js.sar sample0 8) 0x80 in
  let sample1 := if negb (sign =? 0) then - sample0 else sample0 in
  let sample2 := if sample1 >? 32635 then 32635 else sample1 in
  let sample := sample2 + BIAS in
  let exponent := Z.of_nat (expSearch sample 7 0x4000) in
  let mantissa :=
    Js.band (Js.sar sample (if exponent =? 0 then 4 else exponent + 3)) 0x0f in
  let ulaw := Js.bnot (Js.bor sign (Js.bor (Js.shl exponent 4) mantissa)) in
  Js.band ulaw 0xff.

(** [encodePcm16ToMulaw]: [samples = len / 2] and one [readInt16LE] per
    sample; on an odd length the last read runs past the end of the buffer
    and throws ([None]). *)
Fixpoint encodePcm16ToMulaw (pcm : list Z) : option (list Z) :=
  match pcm with
  | [] => Some []
  | [_] => None
  | lo :: hi :: rest =>
      match encodePcm16ToMulaw rest with
      | None => None
      | Some out => Some (pcm16ToMulawSample (readInt16LE lo hi) :: out)
      end
  end.

(** The reference G.711 mu-law compressor (the classic CCITT routine the
    encoder follows: sign, clip to 32635, add the bias 0x84, exponent from
    the highest set bit of [sample >> 7], mantissa [(sample >> (exponent +
    3)) & 0x0F], inverted).  Used only as the comparison point of the
    bit-exactness claim. *)
Definition ulaw_reference (x : Z) : Z :=
  let sign := if x <? 0 then 0x80 else 0 in
  let mag := Z.min (Z.abs x) 32635 + 0x84 in
  let exponent := Z.log2 (Z.land (Z.shiftr mag 7) 0xff) in
  let mantissa := Z.land (Z.shiftr mag (exponent + 3)) 0x0f in
  Z.land (Z.lnot (Z.lor sign (Z.lor (Z.shiftl exponent 4) mantissa))) 0xff.

(* ------------------------------------------------------------------ *)
(** ** Exhaustive checking over integer ranges *)

Fixpoint zrange_from (lo : Z) (n : nat) : list Z :=
  match n with O => [] | S n' => lo :: zrange_from (lo + 1) n' end.

(** The integers [lo, lo + n). *)
Definition zrange (lo n : Z) : list Z := zrange_from lo (Z.to_nat n).

(** Segment (exponent) of a PCM sample in the reference companding law,
    and the quantisation step of that segment on the 16-bit scale. *)
Definition ulaw_segment (x : Z) : Z :=
  Z.log2 (Z.land (Z.shiftr (Z.min (Z.abs x) 32635 + 0x84) 7) 0xff).
Definition quant_step (x : Z) : Z := 2 ^ (ulaw_segment x + 3).

Definition roundtrip_ok (enc : Z -> Z) (x : Z) : bool :=
  Z.abs (decodeSample (enc x) - x) <=? quant_step x.

Definition decode_in_range (b : Z) : bool :=
  (-32124 <=? decodeSample b) && (decodeSample b <=? 32124).
Definition enc_matches_ref (x : Z) : bool :=
  implb (116 <=? Z.abs x) (pcm16ToMulawSample x =? ulaw_reference x).

(** Every byte decodes to a sample in [-32124, 32124]. *)
(* ------------------------------------------------------------------ *)
(** ** Voice activity detection (the RMS block of the media handler)

    [rms += s * s] over [s = pcm.readInt16LE(i) / 32768], then
    [rms = Math.sqrt(rms / (pcm.length / 2))] and
    [isSpeech = rms > SPEECH_THRESH].  Arithmetic on the squares is exact
    (rational); the square root is kept symbolic: [RmsSqrt ms] is
    [Math.sqrt(ms)].  JavaScript's [0 / 0] is NaN and [x / 0] (x > 0) is
    Infinity; [Math.sqrt] maps them to themselves. *)

Inductive rms_value := RmsNaN | RmsInf | RmsSqrt (ms : Q).

Definition SPEECH_THRESH : Q := 15 # 1000.

(** The sum of squares of the normalised samples; [None] when a
    [readInt16LE] runs past the end (odd length). *)
Fixpoint sumSquares (pcm : list Z) : option Q :=
  match pcm with
  | [] => Some 0%Q
  | [_] => None
  | lo :: hi :: rest =>
      match sumSquares rest with
      | None => None
      | Some acc =>
          let s := (inject_Z (readInt16LE lo hi) / inject_Z 32768)%Q in
          Some (s * s + acc)%Q
      end
  end.

(** [Math.sqrt(acc / count)] with JavaScript division. *)
Definition rmsOf (acc count : Q) : rms_value :=
  if Qeq_bool count 0 then (if Qeq_bool acc 0 then RmsNaN else RmsInf)
  else RmsSqrt (acc / count).

(** [rms > SPEECH_THRESH]: NaN compares false; for a finite [ms >= 0],
    [sqrt ms > t] iff [ms > t * t]. *)
Definition gtThresh (r : rms_value) : bool :=
  match r with
  | RmsNaN => false
  | RmsInf => true
  | RmsSqrt ms => negb (Qle_bool ms (SPEECH_THRESH * SPEECH_THRESH))
  end.

(** The classification of one decoded frame: [(isSpeech, rms)]. *)
Definition classify (pcm : list Z) : option (bool * rms_value) :=
  match sumSquares pcm with
  | None => None
  | Some acc =>
      let r := rmsOf acc (inject_Z (Z.of_nat (length pcm)) / 2)%Q in
      Some (gtThresh r, r)
  end.

Definition rms_is_zero (r : rms_value) : bool :=
  match r with RmsSqrt ms => Qeq_bool ms 0 | _ => false end.

(* ------------------------------------------------------------------ *)
(** ** Base64 ([frame.toString("base64")], RFC 4648 with padding) *)

Definition b64_alphabet : string :=
  "ABCDEFGHIJKLMNOPQRSTUVWXYZabcdefghijklmnopqrstuvwxyz0123456789+/".

Definition b64_pad : ascii := "="%char.

Definition b64_char (i : Z) : ascii :=
  match String.get (Z.to_nat i) b64_alphabet with Some c => c | None => b64_pad end.

Fixpoint b64_index_from (c : ascii) (s : string) (n : Z) : option Z :=
  match s with
  | EmptyString => None
  | String d s' => if Ascii.eqb c d then Some n else b64_index_from c s' (n + 1)
  end.

Definition b64_index (c : ascii) : option Z := b64_index_from c b64_alphabet 0.

Fixpoint base64_encode (bs : list Z) : list ascii :=
  match bs with
  | [] => []
  | [b0] => [b64_char (b0 / 4); b64_char ((b0 mod 4) * 16); b64_pad; b64_pad]
  | [b0; b1] =>
      [b64_char (b0 / 4); b64_char ((b0 mod 4) * 16 + b1 / 16);
       b64_char ((b1 mod 16) * 4); b64_pad]
  | b0 :: b1 :: b2 :: rest =>
      [b64_char (b0 / 4); b64_char ((b0 mod 4) * 16 + b1 / 16);
       b64_char ((b1 mod 16) * 4 + b2 / 64); b64_char (b2 mod 64)]
      ++ base64_encode rest
  end.

(** The receiving end's decoder (strict: padding only in the last group). *)
Fixpoint base64_decode (cs : list ascii) : option (list Z) :=
  match cs with
  | [] => Some []
  | c0 :: c1 :: c2 :: c3 :: rest =>
      match b64_index c0, b64_index c1 with
      | Some i0, Some i1 =>
          if Ascii.eqb c2 b64_pad then
            if Ascii.eqb c3 b64_pad && bool_decide (rest = [])
            then Some [i0 * 4 + i1 / 16] else None
          else
            match b64_index c2 with
            | None => None
            | Some i2 =>
                if Ascii.eqb c3 b64_pad then
                  if bool_decide (rest = [])
                  then Some [i0 * 4 + i1 / 16; (i1 mod 16) * 16 + i2 / 4]
                  else None
                else
                  match b64_index c3, base64_decode rest with
                  | Some i3, Some out =>
                      Some ([i0 * 4 + i1 / 16; (i1 mod 16) * 16 + i2 / 4;
                             (i2 mod 4) * 64 + i3] ++ out)
                  | _, _ => None
                  end
            end
      | _, _ => None
      end
  | _ => None
  end.

(* ------------------------------------------------------------------ *)
(** ** Frame scheduler: sendMulawStream *)

Record media_msg := mkMedia {
  msg_event : string;
  msg_streamSid : string;
  msg_payload : list ascii
}.

(** What the loop does to the socket: [ws.send(...)] and the 20 ms
    [await new Promise(r => setTimeout(r, 20))]. *)
Inductive ws_event := WsSend (m : media_msg) | Sleep (ms : Z).

Definition BYTES_PER_FRAME : nat := 160.

(** [buf.subarray(s, e)] *)
Definition subarray (buf : list Z) (s e : nat) : list Z := firstn (e - s) (skipn s buf).

Definition mediaMessage (streamSid : string) (frame : list Z) : media_msg :=
  mkMedia "media" streamSid (base64_encode frame).

(** One iteration at offset [off]: the loop condition [off < len], the
    [ws.readyState !== 1] break, and the frame sent. *)
Definition sendFrameAt (isOpen : bool) (streamSid : string) (buf : list Z) (off : nat)
  : option media_msg :=
  if Nat.ltb off (length buf) then
    if isOpen then
      Some (mediaMessage streamSid
              (subarray buf off (Nat.min (off + BYTES_PER_FRAME) (length buf))))
    else None
  else None.

(** The loop; [ready k] is [ws.readyState === 1] as observed at the check
    of iteration [k].  [fuel] bounds the iterations (each one advances
    [off] by 160). *)
Fixpoint sendLoop (ready : nat -> bool) (streamSid : string) (buf : list Z)
    (fuel k off : nat) : list ws_event :=
  match fuel with
  | O => []
  | S fuel' =>
      match sendFrameAt (ready k) streamSid buf off with
      | None => []
      | Some m =>
          WsSend m :: Sleep 20
            :: sendLoop ready streamSid buf fuel' (S k) (off + BYTES_PER_FRAME)
      end
  end.

Definition sendMulawStream (ready : nat -> bool) (streamSid : string) (mulawBuf : list Z)
  : list ws_event :=
  sendLoop ready streamSid mulawBuf (S (length mulawBuf)) 0 0.

(** Description of the frames the loop cuts: consecutive 160-byte slices,
    the last one possibly shorter ([fuel] bounds the recursion). *)
Fixpoint chunksOf (fuel : nat) (l : list Z) : list (list Z) :=
  match fuel with
  | O => []
  | S f =>
      match l with
      | [] => []
      | _ :: _ => firstn BYTES_PER_FRAME l :: chunksOf f (skipn BYTES_PER_FRAME l)
      end
  end.

Definition emitFrame (streamSid : string) (f : list Z) : list ws_event :=
  [WsSend (mediaMessage streamSid f); Sleep 20].

(** The frames emitted while the socket keeps being observed open. *)
Fixpoint emitWhileOpen (ready : nat -> bool) (streamSid : string) (k : nat)
    (fs : list (list Z)) : list ws_event :=
  match fs with
  | [] => []
  | f :: fs' =>
      if ready k then emitFrame streamSid f ++ emitWhileOpen ready streamSid (S k) fs'
      else []
  end.

Definition b64_char_ok (i : Z) : bool :=
  match b64_index (b64_char i) with
  | Some j => (j =? i) && negb (Ascii.eqb (b64_char i) b64_pad)
  | None => false
  end.

(* ------------------------------------------------------------------ *)
(** ** Per-call state ([makeState]) *)

Inductive role := RoleUser | RoleAssistant.

Record session := mkSession {
  streamSid : string;
  callSid : option string;
  listening : bool;
  heardAnySpeech : bool;
  pcmBuffer : list (list Z);
  silenceFrames : Z;
  context : list (role * string);
  nudgeTimer : option nat
}.

Definition makeState (sid : string) (cid : option string) : session :=
  mkSession sid cid true false [] 0 [] None.

Definition with_listening (b : bool) (s : session) : session :=
  mkSession (streamSid s) (callSid s) b (heardAnySpeech s) (pcmBuffer s)
    (silenceFrames s) (context s) (nudgeTimer s).
Definition with_heard (b : bool) (s : session) : session :=
  mkSession (streamSid s) (callSid s) (listening s) b (pcmBuffer s)
    (silenceFrames s) (context s) (nudgeTimer s).
Definition with_buffer (bufs : list (list Z)) (s : session) : session :=
  mkSession (streamSid s) (callSid s) (listening s) (heardAnySpeech s) bufs
    (silenceFrames s) (context s) (nudgeTimer s).
Definition with_silence (n : Z) (s : session) : session :=
  mkSession (streamSid s) (callSid s) (listening s) (heardAnySpeech s) (pcmBuffer s)
    n (context s) (nudgeTimer s).
Definition with_context (c : list (role * string)) (s : session) : session :=
  mkSession (streamSid s) (callSid s) (listening s) (heardAnySpeech s) (pcmBuffer s)
    (silenceFrames s) c (nudgeTimer s).
Definition with_nudge (t : option nat) (s : session) : session :=
  mkSession (streamSid s) (callSid s) (listening s) (heardAnySpeech s) (pcmBuffer s)
    (silenceFrames s) (context s) t.

(** [state.context.push({ role, content })] *)
Definition pushContext (r : role) (text : string) (s : session) : session :=
  with_context (context s ++ [(r, text)]) s.

Definition NUDGE_LINES : list string :=
  ["Hey Rashid, your daughter Cyma told me to call.";
   " Hey Rashid, your daughter Cyma told me to call . Do you still work with Haroon Shaikh?";
   " Hey Rashid, your daughter Cyma told me to call . What’s on your mind right now?"].

Definition CHAT_FALLBACK : string := "I’m here with you. Tell me more about that.".

(* ------------------------------------------------------------------ *)
(** ** The connection: socket, [state] variable, objects, timers, tasks

    One WebSocket connection.  Session objects live in a heap, because the
    asynchronous continuations keep the object they started on after the
    handler's [state] variable is reset by a stop message.  Timers map a
    timer id to the object whose nudge callback they will run.  A task is
    an async function suspended at an [await]; the environment resumes
    tasks in any order.  [log] records the calls to the collaborators and
    the frames sent on the socket. *)

(** What happens after [speakText] returns: the nudge callback pushes its
    line to the context, [finalizeTurn] just returns. *)
Inductive after_speak := AfterNudge (seed : string) | AfterReply.

Inductive task :=
  | TaskSTT (o : nat)                          (* finalizeTurn: await transcribeWhisper *)
  | TaskChat (o : nat) (text : string)         (* finalizeTurn: await chatReply *)
  | TaskSynth (o : nat) (k : after_speak)      (* speakText: await synthesizePcm16_8k *)
  | TaskSend (o : nat) (k : after_speak) (buf : list Z) (off : nat).
                                               (* sendMulawStream: await the 20 ms timer *)

Inductive call :=
  | CallSTT (pcm : list Z)
  | CallChat (ctx : list (role * string)) (userText : string)
  | CallSynth (text : string)
  | CallSend (m : media_msg)
  | CallError.

Record world := mkWorld {
  wsOpen : bool;                 (* ws.readyState === 1 *)
  kaActive : bool;               (* the keepalive interval is set *)
  stateVar : option nat;         (* the handler's [state] *)
  heap : gmap nat session;
  nextObj : nat;
  timers : gmap nat nat;         (* pending nudge timeouts *)
  nextTimer : nat;
  tasks : list task;
  log : list call
}.

Definition initWorld : world := mkWorld true true None ∅ 0 ∅ 0 [] [].

Definition w_heap (h : gmap nat session) (w : world) : world :=
  mkWorld (wsOpen w) (kaActive w) (stateVar w) h (nextObj w) (timers w) (nextTimer w)
    (tasks w) (log w).
Definition w_timers (t : gmap nat nat) (n : nat) (w : world) : world :=
  mkWorld (wsOpen w) (kaActive w) (stateVar w) (heap w) (nextObj w) t n (tasks w) (log w).
Definition w_tasks (ts : list task) (w : world) : world :=
  mkWorld (wsOpen w) (kaActive w) (stateVar w) (heap w) (nextObj w) (timers w)
    (nextTimer w) ts (log w).
Definition w_log (l : list call) (w : world) : world :=
  mkWorld (wsOpen w) (kaActive w) (stateVar w) (heap w) (nextObj w) (timers w)
    (nextTimer w) (tasks w) l.

Definition emit (c : call) (w : world) : world := w_log (log w ++ [c]) w.
Definition spawn (t : task) (w : world) : world := w_tasks (tasks w ++ [t]) w.

(** Apply [f] to the object [o]. *)
Definition updSession (o : nat) (f : session -> session) (w : world) : world :=
  match heap w !! o with
  | Some s => w_heap (<[o := f s]> (heap w)) w
  | None => w
  end.

(** [clearTimeout(id)] (no effect on a timer that already fired). *)
Definition clearTimeout (id : nat) (w : world) : world :=
  w_timers (delete id (timers w)) (nextTimer w) w.
(* ------------------------------------------------------------------ *)
(** ** scheduleNudge, speakText, finalizeTurn and their continuations *)

(** [scheduleNudge(state)]: clear the pending timer, set a new 3 s one. *)
Definition scheduleNudge (o : nat) (w : world) : world :=
  match heap w !! o with
  | None => w
  | Some s =>
      let w1 := match nudgeTimer s with Some id => clearTimeout id w | None => w end in
      let id := nextTimer w1 in
      updSession o (with_nudge (Some id))
        (w_timers (<[id := o]> (timers w1)) (S id) w1)
  end.

(** [speakText(state, text)] up to [await synthesizePcm16_8k(text)]. *)
Definition speakText (o : nat) (text : string) (k : after_speak) (w : world) : world :=
  spawn (TaskSynth o k) (emit (CallSynth text) (updSession o (with_listening false) w)).

(** The [finally] block of [speakText], then the caller's continuation. *)
Definition finishSpeak (o : nat) (k : after_speak) (w : world) : world :=
  let w1 := scheduleNudge o (updSession o (with_listening true) w) in
  match k with
  | AfterNudge seed => updSession o (pushContext RoleAssistant seed) w1
  | AfterReply => w1
  end.

(** One iteration of the [sendMulawStream] loop inside [speakText], with
    [state.ws] and [state.streamSid]. *)
Definition sendNext (o : nat) (k : after_speak) (buf : list Z) (off : nat) (w : world)
  : world :=
  match heap w !! o with
  | None => w
  | Some s =>
      match sendFrameAt (wsOpen w) (streamSid s) buf off with
      | Some m => spawn (TaskSend o k buf off) (emit (CallSend m) w)
      | None => finishSpeak o k w
      end
  end.

(** [synthesizePcm16_8k] settled: [None] is a rejection (caught). *)
Definition onSynth (o : nat) (k : after_speak) (r : option (list Z)) (w : world) : world :=
  match r with
  | None => finishSpeak o k w
  | Some pcm =>
      match encodePcm16ToMulaw pcm with
      | None => finishSpeak o k w
      | Some mulaw => sendNext o k mulaw 0 w
      end
  end.

(** The 20 ms timer of the send loop fired: [off += BYTES_PER_FRAME]. *)
Definition onTick (o : nat) (k : after_speak) (buf : list Z) (off : nat) (w : world)
  : world :=
  sendNext o k buf (off + BYTES_PER_FRAME) w.

(** [finalizeTurn(state)] up to [await transcribeWhisper(pcm)]. *)
Definition finalizeTurn (o : nat) (w : world) : world :=
  match heap w !! o with
  | None => w
  | Some s =>
      match pcmBuffer s with
      | [] => w
      | _ :: _ =>
          let pcm := concat (pcmBuffer s) in
          spawn (TaskSTT o)
            (emit (CallSTT pcm) (updSession o (fun s => with_silence 0 (with_buffer [] s)) w))
      end
  end.

(** [transcribeWhisper] settled ([None]: it threw, [text] stays [""]). *)
Definition onSTT (o : nat) (r : option string) (w : world) : world :=
  let text := match r with Some t => t | None => ""%string end in
  if String.eqb text "" then w
  else
    let w1 := updSession o (pushContext RoleUser text) w in
    match heap w1 !! o with
    | None => w1
    | Some s => spawn (TaskChat o text) (emit (CallChat (context s) text) w1)
    end.

(** [chatReply] settled ([None]: it threw, the fixed fallback is used). *)
Definition onChat (o : nat) (r : option string) (w : world) : world :=
  let reply := match r with Some t => t | None => CHAT_FALLBACK end in
  speakText o reply AfterReply (updSession o (pushContext RoleAssistant reply) w).

(* ------------------------------------------------------------------ *)
(** ** The WebSocket handlers *)

(** The media branch: [if (!state) return; ... if (!state.listening) return;]
    then decode, push, RMS VAD, and the turn segmenter. *)
Definition onMedia (mu : list Z) (w : world) : world :=
  match stateVar w with
  | None => w
  | Some o =>
      match heap w !! o with
      | None => w
      | Some s =>
          if negb (listening s) then w else
          match decodeMulawToPcm16 mu with
          | None => emit CallError w
          | Some pcm =>
              let s1 := with_buffer (pcmBuffer s ++ [pcm]) s in
              match classify pcm with
              | None => emit CallError (updSession o (fun _ => s1) w)
              | Some (isSpeech, _) =>
                  if isSpeech then
                    let s2 := with_silence 0 (with_heard true s1) in
                    match nudgeTimer s2 with
                    | Some id => updSession o (fun _ => with_nudge None s2) (clearTimeout id w)
                    | None => updSession o (fun _ => s2) w
                    end
                  else
                    let s2 := with_silence (silenceFrames s1 + 1) s1 in
                    if heardAnySpeech s2 && (12 <=? silenceFrames s2) then
                      finalizeTurn o (updSession o (fun _ => with_heard false s2) w)
                    else updSession o (fun _ => s2) w
              end
          end
      end
  end.

(** The start branch: a new state object, then [scheduleNudge(state)]. *)
Definition onStart (sid : string) (cid : option string) (w : world) : world :=
  let o := nextObj w in
  scheduleNudge o
    (mkWorld (wsOpen w) (kaActive w) (Some o) (<[o := makeState sid cid]> (heap w))
       (S o) (timers w) (nextTimer w) (tasks w) (log w)).

(** The stop branch: [if (state?.nudgeTimer) clearTimeout(...); state = null;] *)
Definition onStop (w : world) : world :=
  let w1 :=
    match stateVar w with
    | Some o =>
        match heap w !! o with
        | Some s => match nudgeTimer s with Some id => clearTimeout id w | None => w end
        | None => w
        end
    | None => w
    end in
  mkWorld (wsOpen w1) (kaActive w1) None (heap w1) (nextObj w1) (timers w1)
    (nextTimer w1) (tasks w1) (log w1).

(** [ws.on("close", () => clearInterval(ka))]; the socket is closed. *)
Definition onClose (w : world) : world :=
  mkWorld false false (stateVar w) (heap w) (nextObj w) (timers w) (nextTimer w)
    (tasks w) (log w).

(** A nudge timeout fires; [choice] is [Math.floor(Math.random() * 3)]. *)
Definition onFire (id : nat) (choice : nat) (w : world) : world :=
  match timers w !! id with
  | None => w
  | Some o =>
      let w1 := w_timers (delete id (timers w)) (nextTimer w) w in
      match heap w1 !! o with
      | None => w1
      | Some s =>
          if negb (listening s) then w1
          else
            let seed := nth choice NUDGE_LINES ""%string in
            speakText o seed (AfterNudge seed) w1
      end
  end.
(** How an awaited operation settles. *)
Inductive result :=
  | RText (r : option string)          (* transcribeWhisper / chatReply *)
  | RAudio (r : option (list Z))       (* synthesizePcm16_8k *)
  | RTick.                             (* the 20 ms pacing timer *)

(** Resume the suspended task number [i]. *)
Definition onResume (i : nat) (r : result) (w : world) : world :=
  match tasks w !! i with
  | None => w
  | Some t =>
      let w1 := w_tasks (delete i (tasks w)) w in
      match t, r with
      | TaskSTT o, RText x => onSTT o x w1
      | TaskChat o _, RText x => onChat o x w1
      | TaskSynth o k, RAudio a => onSynth o k a w1
      | TaskSend o k buf off, RTick => onTick o k buf off w1
      | _, _ => w
      end
  end.

(** What can happen on one connection. *)
Inductive event :=
  | EvStart (sid : string) (cid : option string)   (* {event:"start"} *)
  | EvMedia (mu : list Z)                          (* {event:"media"}, payload decoded *)
  | EvStop                                         (* {event:"stop"} *)
  | EvMalformed                                    (* JSON.parse throws: dropped *)
  | EvClose                                        (* the socket closes *)
  | EvFire (id : nat) (choice : nat)               (* a nudge timeout fires *)
  | EvResume (i : nat) (r : result).               (* an awaited operation settles *)

Definition step (e : event) (w : world) : world :=
  match e with
  | EvStart sid cid => onStart sid cid w
  | EvMedia mu => onMedia mu w
  | EvStop => onStop w
  | EvMalformed => w
  | EvClose => onClose w
  | EvFire id c => onFire id c w
  | EvResume i r => onResume i r w
  end.

Definition run (es : list event) (w : world) : world := fold_left (fun w e => step e w) es w.

(** A decoded frame with its VAD verdict. *)
Definition vadFrame (mu : list Z) : option (list Z * bool) :=
  match decodeMulawToPcm16 mu with
  | None => None
  | Some pcm =>
      match classify pcm with
      | Some (isSpeech, _) => Some (pcm, isSpeech)
      | None => None
      end
  end.



(** Test vectors: a loud frame (byte 0x00 decodes to -32124) and a silent
    one (byte 0xFF decodes to 0), 160 bytes each. *)
Definition speechFrame : list Z := repeat 0 160.
Definition silenceFrame : list Z := repeat 255 160.


(* ------------------------------------------------------------------ *)
(** ** pcm16ToWav8kMono: the WAV container handed to Whisper and /tts *)

(** [Buffer.alloc(n)]: [n] zero bytes. *)
Definition alloc (n : nat) : list Z := repeat 0 n.

(** The bytes of [buf] with [bs] written from [off] on. *)
Definition putBytes (buf : list Z) (off : nat) (bs : list Z) : list Z :=
  firstn off buf ++ bs ++ skipn (off + length bs) buf.

(** [buf.writeUInt32LE(v, off)]: RangeError ([None]) unless [v] is an
    unsigned 32-bit integer and the four bytes fit. *)
Definition writeUInt32LE (buf : list Z) (v : Z) (off : nat) : option (list Z) :=
  if (0 <=? v) && (v <=? 4294967295) && (off + 4 <=? length buf)%nat
  then Some (putBytes buf off [Z.land v 255; Z.land (Z.shiftr v 8) 255;
                               Z.land (Z.shiftr v 16) 255; Z.land (Z.shiftr v 24) 255])
  else None.

(** [buf.writeUInt16LE(v, off)] *)
Definition writeUInt16LE (buf : list Z) (v : Z) (off : nat) : option (list Z) :=
  if (0 <=? v) && (v <=? 65535) && (off + 2 <=? length buf)%nat
  then Some (putBytes buf off [Z.land v 255; Z.land (Z.shiftr v 8) 255])
  else None.

Definition ascii_bytes (s : string) : list Z :=
  map (fun c => Z.of_nat (nat_of_ascii c)) (String.list_ascii_of_string s).

(** [buf.write(str, off)] for an ASCII [str] and [off <= buf.length]: the
    bytes that fit are written. *)
Definition writeStr (buf : list Z) (str : string) (off : nat) : list Z :=
  putBytes buf off (firstn (length buf - off) (ascii_bytes str)).

(** [src.copy(buf, off)]: as many bytes as fit. *)
Definition copyInto (src buf : list Z) (off : nat) : list Z :=
  putBytes buf off (firstn (length buf - off) src).

Definition pcm16ToWav8kMono (pcm : list Z) : option (list Z) :=
  let sampleRate := 8000 in
  let byteRate := sampleRate * 2 in
  let blockAlign := 2 in
  let bitsPerSample := 16 in
  let dataSize := Z.of_nat (length pcm) in
  let riffSize := 36 + dataSize in
  let buf := alloc (44 + length pcm) in
  let buf := writeStr buf "RIFF" 0 in
  buf ← writeUInt32LE buf riffSize 4;
  let buf := writeStr buf "WAVE" 8 in
  let buf := writeStr buf "fmt " 12 in
  buf ← writeUInt32LE buf 16 16;
  buf ← writeUInt16LE buf 1 20;
  buf ← writeUInt16LE buf 1 22;
  buf ← writeUInt32LE buf sampleRate 24;
  buf ← writeUInt32LE buf byteRate 28;
  buf ← writeUInt16LE buf blockAlign 32;
  buf ← writeUInt16LE buf bitsPerSample 34;
  let buf := writeStr buf "data" 36 in
  buf ← writeUInt32LE buf dataSize 40;
  Some (copyInto pcm buf 44).

(** What a WAV reader sees: [buf.readUInt32LE(off)], [buf.readUInt16LE(off)]
    and the four-byte tags. *)
Definition readUInt32LE (buf : list Z) (off : nat) : Z :=
  nth off buf 0 + 256 * nth (off + 1) buf 0 + 65536 * nth (off + 2) buf 0
  + 16777216 * nth (off + 3) buf 0.
Definition readUInt16LE (buf : list Z) (off : nat) : Z :=
  nth off buf 0 + 256 * nth (off + 1) buf 0.
Definition readTag (buf : list Z) (off : nat) : list Z := firstn 4 (skipn off buf).

(* ------------------------------------------------------------------ *)
(** ** toE164 and the /call-me guard *)

(** [\d] in a JavaScript regular expression without the [u] flag. *)
Definition is_digit (c : ascii) : bool :=
  let n := nat_of_ascii c in (48 <=? n)%nat && (n <=? 57)%nat.

Definition plus_char : ascii := "+"%char.

(** [toE164(num)]: [String(num || "").replace(/[^\d+]/g, "")], then a
    leading "+" unless there is one.  The form field is a string or absent
    ([None]); [String] of a string is the string itself and [""] is falsy. *)
Definition toE164 (num : option string) : string :=
  let s0 := match num with Some t => t | None => ""%string end in
  let s := String.string_of_list_ascii
             (List.filter (fun c => is_digit c || Ascii.eqb c plus_char) (String.list_ascii_of_string s0)) in
  if String.prefix "+" s then s else String plus_char s.

(** [/^\+\d{10,15}$/.test(to)] *)
Definition validE164 (to : string) : bool :=
  match String.list_ascii_of_string to with
  | c :: ds => Ascii.eqb c plus_char && forallb is_digit ds
               && (10 <=? length ds)%nat && (length ds <=? 15)%nat
  | [] => false
  end.

(** [process.env.CALL_ME_SECRET || "changeme"] *)
Definition CALL_ME_SECRET (env : option string) : string :=
  match env with
  | Some s => if String.eqb s "" then "changeme" else s
  | None => "changeme"
  end.

Inductive callme_result :=
  | CallMeUnauthorized                 (* 401 {error:"Unauthorized"} *)
  | CallMeInvalid                      (* 400 {error:"Invalid phone number"} *)
  | CallMePlace (to : string).         (* twilioClient.calls.create({ to, ... }) *)

(** The checks of [POST /call-me] before the call is placed; the fields of
    the form body are strings or absent. *)
Definition callMe (env secret to : option string) : callme_result :=
  let key := CALL_ME_SECRET env in
  if negb (String.eqb key "") && negb (bool_decide (secret = Some key))
  then CallMeUnauthorized
  else
    let t := toE164 to in
    if negb (validE164 t) then CallMeInvalid else CallMePlace t.

(* ------------------------------------------------------------------ *)
(** ** chatReply: the reply text ([String.prototype.trim], fallback)

    JavaScript strings are sequences of UTF-16 code units (Z values). *)

(** WhiteSpace and LineTerminator code units removed by [trim]. *)
Definition is_js_space (u : Z) : bool :=
  existsb (Z.eqb u) [9; 10; 11; 12; 13; 32; 160; 5760; 8232; 8233; 8239; 8287; 12288; 65279]
  || ((8192 <=? u) && (u <=? 8202)).

Fixpoint trimStart (s : list Z) : list Z :=
  match s with
  | [] => []
  | u :: r => if is_js_space u then trimStart r else s
  end.

Definition trimEnd (s : list Z) : list Z := rev (trimStart (rev s)).

Definition trim (s : list Z) : list Z := trimEnd (trimStart s).

(** "I’m here with you. Tell me more about that." (U+2019 is one code unit). *)
Definition CHAT_FALLBACK_U16 : list Z :=
  [73; 8217] ++ ascii_bytes "m here with you. Tell me more about that.".

(** [(r.choices?.[0]?.message?.content || "").trim() || fallback]; [None] is
    a missing or null content. *)
Definition chatReplyText (content : option (list Z)) : list Z :=
  match trim (match content with Some c => c | None => [] end) with
  | [] => CHAT_FALLBACK_U16
  | t => t
  end.

(* ------------------------------------------------------------------ *)
(** ** Checkers evaluated over whole input ranges *)

(** The shape of the decoder on byte [b]: increasing and non-positive on
    0..127, decreasing and non-negative on 128..255. *)
Definition decode_shape_ok (b : Z) : bool :=
  implb (b <? 127) (decodeSample b <? decodeSample (b + 1))
  && implb (b <=? 127) (decodeSample b <=? 0)
  && implb ((128 <=? b) && (b <? 255)) (decodeSample (b + 1) <? decodeSample b)
  && implb (128 <=? b) (0 <=? decodeSample b)
  && (decodeSample (Z.lxor b 128) =? - decodeSample b).

Definition enc_sym_ok (x : Z) : bool :=
  pcm16ToMulawSample (- x) =? Z.lxor (pcm16ToMulawSample x) 128.

Definition enc_mono_ok (x : Z) : bool :=
  decodeSample (pcm16ToMulawSample x) <=? decodeSample (pcm16ToMulawSample (x + 1)).

Definition reencode_ok (b : Z) : bool :=
  implb (negb (Z.land b 0x70 =? 0x70)) (pcm16ToMulawSample (decodeSample b) =? b).

(* ------------------------------------------------------------------ *)
(** ** Invariants of a connection *)

(** What every recorded call to a collaborator satisfies. *)
Definition good_call (c : call) : Prop :=
  match c with
  | CallSTT pcm => pcm <> []
  | CallChat ctx t => t <> ""%string /\ exists pre, ctx = pre ++ [(RoleUser, t)]
  | _ => True
  end.

(** A session that has heard speech holds a non-empty frame in its turn
    buffer. *)
Definition sess_ok (s : session) : Prop :=
  heardAnySpeech s = true -> Exists (fun f => f <> []) (pcmBuffer s).

(** The invariant of a connection: objects and timer ids are below the
    next ones handed out, every pending timer is the one its object
    records, and every recorded call is well formed. *)
Record winv (w : world) : Prop := {
  inv_heap : forall o s, heap w !! o = Some s -> (o < nextObj w)%nat /\ sess_ok s;
  inv_timers : forall id o, timers w !! id = Some o ->
    (id < nextTimer w)%nat /\ exists s, heap w !! o = Some s /\ nudgeTimer s = Some id;
  inv_log : Forall good_call (log w)
}.

Definition not_send (c : call) : Prop := match c with CallSend _ => False | _ => True end.

(** [w'] extends [w]: the socket state is the same and the calls appended are no sends. *)
Definition quiet_ext (w w' : world) : Prop :=
  wsOpen w' = wsOpen w /\ exists l, log w' = log w ++ l /\ Forall not_send l.

(* ================================================================== *)
(** * Properties *)

Example decode_ff : decodeSample 0xff = 0. Proof. reflexivity. Qed.
Example decode_00 : decodeSample 0x00 = -32124. Proof. reflexivity. Qed.
Example enc_ref_0 : ulaw_reference 0 = 0xff. Proof. reflexivity. Qed.
Example enc_0 : pcm16ToMulawSample 0 = 0xf7. Proof. reflexivity. Qed.
Example enc_big : pcm16ToMulawSample 32767 = ulaw_reference 32767.
Proof. reflexivity. Qed.
Example enc_neg : pcm16ToMulawSample (-1000) = ulaw_reference (-1000).
Proof. reflexivity. Qed.

Lemma in_zrange_from (n i : nat) (lo : Z) :
  (i < n)%nat -> In (lo + Z.of_nat i) (zrange_from lo n).
Proof.
  revert i lo. induction n as [|n IH]; intros i lo Hi; [lia|].
  destruct i as [|i]; simpl; [left; lia | right].
  replace (lo + Z.of_nat (S i)) with ((lo + 1) + Z.of_nat i) by lia.
  apply IH. lia.
Qed.

Lemma forallb_zrange (P : Z -> bool) (lo n x : Z) :
  forallb P (zrange lo n) = true -> lo <= x < lo + n -> P x = true.
Proof.
  intros H Hx. rewrite forallb_forall in H. apply H. unfold zrange.
  replace x with (lo + Z.of_nat (Z.to_nat (x - lo))) by lia.
  apply in_zrange_from. lia.
Qed.

Lemma decodeSample_bounds (b : Z) :
  0 <= b < 256 -> -32124 <= decodeSample b <= 32124.
Proof.
  intros Hb.
  assert (H : decode_in_range b = true).
  { apply (forallb_zrange _ 0 256); [vm_compute; reflexivity | lia]. }
  unfold decode_in_range in H. apply andb_true_iff in H as [H1 H2]. lia.
Qed.

Lemma writeInt16LE_decodeSample (b : Z) :
  0 <= b < 256 ->
  exists bs, writeInt16LE (decodeSample b) = Some bs /\ length bs = 2%nat.
Proof.
  intros Hb. pose proof (decodeSample_bounds b Hb) as Hr.
  unfold writeInt16LE.
  replace ((-32768 <=? decodeSample b) && (decodeSample b <=? 32767)) with true
    by (symmetry; apply andb_true_iff; split; apply Z.leb_le; lia).
  eexists; split; reflexivity.
Qed.

(** Outside the lowest segment ([|x| >= 116]) the encoder agrees with the
    reference law bit for bit. *)
Lemma pcm16ToMulawSample_reference_outside_segment0 (x : Z) :
  -32768 <= x <= 32767 -> 116 <= Z.abs x ->
  pcm16ToMulawSample x = ulaw_reference x.
Proof.
  intros Hx Ha.
  assert (H : enc_matches_ref x = true).
  { apply (forallb_zrange _ (-32768) 65536); [vm_compute; reflexivity | lia]. }
  unfold enc_matches_ref in H. apply Z.leb_le in Ha. rewrite Ha in H.
  destruct (pcm16ToMulawSample x =? ulaw_reference x) eqn:E;
    [now apply Z.eqb_eq | discriminate].
Qed.

(** The decoder inverts the reference law within one quantisation step of
    the sample's segment, for every 16-bit sample. *)
Lemma decode_ulaw_reference_within_step (x : Z) :
  -32768 <= x <= 32767 ->
  Z.abs (decodeSample (ulaw_reference x) - x) <= quant_step x.
Proof.
  intros Hx. apply Z.leb_le.
  apply (forallb_zrange (roundtrip_ok ulaw_reference) (-32768) 65536);
    [vm_compute; reflexivity | lia].
Qed.

(* ------------------------------------------------------------------ *)
(** *** Base64 *)

Lemma b64_char_index (i : Z) :
  0 <= i < 64 ->
  b64_index (b64_char i) = Some i /\ Ascii.eqb (b64_char i) b64_pad = false.
Proof.
  intros Hi.
  assert (H : b64_char_ok i = true).
  { apply (forallb_zrange _ 0 64); [vm_compute; reflexivity | lia]. }
  unfold b64_char_ok in H. destruct (b64_index (b64_char i)) as [j|]; [|discriminate].
  apply andb_true_iff in H as [H1 H2]. apply Z.eqb_eq in H1. subst j.
  split; [reflexivity|]. now destruct (Ascii.eqb (b64_char i) b64_pad).
Qed.

(** [lia] with integer division and remainder by constants. *)
Ltac zlia := Z.div_mod_to_equations; lia.

Ltac b64_idx i :=
  let Hr := fresh in let H := fresh in
  assert (Hr : 0 <= i < 64) by zlia;
  let Hp := fresh in
  destruct (b64_char_index i Hr) as [H Hp]; rewrite ?Hp, H; clear H Hp Hr.

Lemma base64_roundtrip (bs : list Z) :
  Forall (fun b => 0 <= b < 256) bs -> base64_decode (base64_encode bs) = Some bs.
Proof.
  induction bs as [bs IH] using (induction_ltof1 _ (@length Z)); unfold ltof in IH.
  intros Hf.
  destruct bs as [|b0 [|b1 [|b2 rest]]]; [reflexivity| | |].
  - apply Forall_cons in Hf as [H0 _]. cbv beta in H0.
    cbn [base64_encode base64_decode].
    b64_idx (b0 / 4). b64_idx ((b0 mod 4) * 16).
    cbn. f_equal. f_equal. zlia.
  - apply Forall_cons in Hf as [H0 Hf]. apply Forall_cons in Hf as [H1 _].
    cbv beta in H0, H1.
    cbn [base64_encode base64_decode].
    b64_idx (b0 / 4). b64_idx ((b0 mod 4) * 16 + b1 / 16).
    b64_idx ((b1 mod 16) * 4). cbn. f_equal. f_equal; [zlia | f_equal; zlia].
  - apply Forall_cons in Hf as [H0 Hf]. apply Forall_cons in Hf as [H1 Hf].
    apply Forall_cons in Hf as [H2 Hf]. cbv beta in H0, H1, H2.
    cbn [base64_encode app base64_decode].
    b64_idx (b0 / 4). b64_idx ((b0 mod 4) * 16 + b1 / 16).
    b64_idx ((b1 mod 16) * 4 + b2 / 64). b64_idx (b2 mod 64).
    rewrite IH by (simpl; lia || exact Hf).
    cbn. f_equal. f_equal; [zlia | f_equal; [zlia | f_equal; zlia]].
Qed.

(* ------------------------------------------------------------------ *)
(** *** Frame scheduler *)

Lemma firstn_min_length (n : nat) (l : list Z) :
  firstn (Nat.min n (length l)) l = firstn n l.
Proof.
  revert l. induction n as [|n IH]; intros [|x l]; simpl; auto.
  f_equal. apply IH.
Qed.

Lemma sendLoop_chunks (ready : nat -> bool) (sid : string) (buf : list Z) :
  forall fuel k off, (length buf - off < fuel)%nat ->
  sendLoop ready sid buf fuel k off
  = emitWhileOpen ready sid k (chunksOf fuel (skipn off buf)).
Proof.
  induction fuel as [|fuel IH]; intros k off Hf; [lia|].
  cbn [sendLoop]. unfold sendFrameAt.
  destruct (Nat.ltb_spec off (length buf)) as [Hlt|Hge].
  - destruct (skipn off buf) as [|x l] eqn:E.
    { apply (f_equal (@length Z)) in E. rewrite length_skipn in E. simpl in E. lia. }
    cbn [chunksOf emitWhileOpen]. rewrite <- E.
    destruct (ready k); [|reflexivity].
    rewrite IH by (unfold BYTES_PER_FRAME; lia). unfold subarray, emitFrame.
    replace (Nat.min (off + BYTES_PER_FRAME) (length buf) - off)%nat
      with (Nat.min BYTES_PER_FRAME (length (skipn off buf)))
      by (rewrite length_skipn; unfold BYTES_PER_FRAME; lia).
    rewrite firstn_min_length, skipn_skipn, (Nat.add_comm BYTES_PER_FRAME off).
    reflexivity.
  - rewrite skipn_all2 by lia. destruct fuel; reflexivity.
Qed.

Lemma ceil160_step (m : nat) :
  ((BYTES_PER_FRAME + m + 159) / 160 = S ((m + 159) / 160))%nat.
Proof.
  unfold BYTES_PER_FRAME.
  replace (160 + m + 159)%nat with (1 * 160 + (m + 159))%nat by lia.
  rewrite Nat.div_add_l by lia. reflexivity.
Qed.

Lemma ceil160_small (m : nat) : (1 <= m <= 160)%nat -> ((m + 159) / 160 = 1)%nat.
Proof. intros Hm. symmetry. apply (Nat.div_unique _ _ _ (m - 1)); lia. Qed.

Lemma chunksOf_cons (fuel : nat) (l : list Z) :
  l <> [] ->
  chunksOf (S fuel) l = firstn BYTES_PER_FRAME l :: chunksOf fuel (skipn BYTES_PER_FRAME l).
Proof. destruct l; [congruence | reflexivity]. Qed.

Lemma chunksOf_spec (fuel : nat) (l : list Z) :
  (length l <= fuel)%nat ->
  concat (chunksOf fuel l) = l
  /\ length (chunksOf fuel l) = ((length l + 159) / 160)%nat
  /\ Forall (fun f => 1 <= length f <= 160)%nat (chunksOf fuel l)
  /\ Forall (fun f => length f = 160%nat) (removelast (chunksOf fuel l)).
Proof.
  revert l. induction fuel as [|fuel IH]; intros l Hl.
  - destruct l; [|simpl in Hl; lia]. repeat split; constructor.
  - destruct (decide (l = [])) as [->|Hne]; [repeat split; constructor|].
    assert (Hl1 : (1 <= length l)%nat) by (destruct l; [congruence | simpl; lia]).
    destruct (IH (skipn BYTES_PER_FRAME l)) as (Hc & Hn & Hb & Hr).
    { rewrite length_skipn. unfold BYTES_PER_FRAME. lia. }
    rewrite (chunksOf_cons fuel l Hne). repeat split.
    + cbn [concat]. rewrite Hc. apply firstn_skipn.
    + simpl length. rewrite Hn, length_skipn.
      destruct (Nat.le_gt_cases (length l) BYTES_PER_FRAME) as [Hs|Hs].
      * replace (length l - BYTES_PER_FRAME)%nat with 0%nat by lia.
        rewrite (ceil160_small (length l)) by (unfold BYTES_PER_FRAME in *; lia).
        reflexivity.
      * replace (length l) with (BYTES_PER_FRAME + (length l - BYTES_PER_FRAME))%nat
          at 2 by lia.
        rewrite ceil160_step. reflexivity.
    + constructor; [|exact Hb]. rewrite length_firstn. unfold BYTES_PER_FRAME. lia.
    + destruct (chunksOf fuel (skipn BYTES_PER_FRAME l)) as [|g gs] eqn:E; [constructor|].
      change (removelast (firstn BYTES_PER_FRAME l :: g :: gs))
        with (firstn BYTES_PER_FRAME l :: removelast (g :: gs)).
      constructor; [|exact Hr].
      rewrite length_firstn. apply Nat.min_l.
      destruct (Nat.le_gt_cases (length l) BYTES_PER_FRAME) as [Hs|Hs];
        [|unfold BYTES_PER_FRAME in *; lia].
      rewrite skipn_all2 in E by lia. destruct fuel; discriminate.
Qed.

Lemma emitWhileOpen_all (sid : string) (fs : list (list Z)) :
  forall k, emitWhileOpen (fun _ => true) sid k fs = flat_map (emitFrame sid) fs.
Proof. induction fs as [|f fs IH]; intros k; simpl; [reflexivity|]. now rewrite IH. Qed.

Lemma emitWhileOpen_until (ready : nat -> bool) (sid : string) (fs : list (list Z)) :
  forall k0 m, (forall j, (k0 <= j < k0 + m)%nat -> ready j = true) ->
  ready (k0 + m)%nat = false ->
  emitWhileOpen ready sid k0 fs = flat_map (emitFrame sid) (firstn m fs).
Proof.
  induction fs as [|f fs IH]; intros k0 m Hopen Hclosed; [destruct m; reflexivity|].
  destruct m as [|m].
  - rewrite Nat.add_0_r in Hclosed. simpl. now rewrite Hclosed.
  - simpl. rewrite Hopen by lia. do 2 f_equal.
    apply IH; [intros j Hj; apply Hopen; lia |].
    now replace (S k0 + m)%nat with (k0 + S m)%nat by lia.
Qed.

(* ------------------------------------------------------------------ *)
(** *** Voice activity detection *)

Lemma sumSquares_zero (n : nat) :
  exists q, sumSquares (repeat 0 (2 * n)) = Some q /\ (q == 0)%Q.
Proof.
  induction n as [|n (q & Hs & Hq)]; [exists 0%Q; split; reflexivity|].
  replace (2 * S n)%nat with (S (S (2 * n))) by lia.
  cbn [repeat sumSquares]. rewrite Hs.
  eexists; split; [reflexivity|]. rewrite Hq. reflexivity.
Qed.

(* ------------------------------------------------------------------ *)
(** *** The media handler *)

Lemma vadFrame_inv (mu p : list Z) (b : bool) :
  vadFrame mu = Some (p, b) ->
  decodeMulawToPcm16 mu = Some p /\ exists e, classify p = Some (b, e).
Proof.
  unfold vadFrame. destruct (decodeMulawToPcm16 mu) as [q|]; [|discriminate].
  destruct (classify q) as [[b' e]|] eqn:E; [|discriminate].
  intros H. injection H as <- <-. eauto.
Qed.

Lemma updSession_lookup (o : nat) (f : session -> session) (w : world) (s : session) :
  heap w !! o = Some s -> heap (updSession o f w) !! o = Some (f s).
Proof. intros H. unfold updSession. rewrite H. simpl. apply lookup_insert_eq. Qed.

Lemma updSession_some (o : nat) (f : session -> session) (w : world) (s : session) :
  heap w !! o = Some s -> updSession o f w = w_heap (<[o := f s]> (heap w)) w.
Proof. intros H. unfold updSession. now rewrite H. Qed.

Lemma onMedia_speech (w : world) (o : nat) (s : session) (mu p : list Z) :
  stateVar w = Some o -> heap w !! o = Some s -> listening s = true ->
  vadFrame mu = Some (p, true) ->
  let w' := step (EvMedia mu) w in
  stateVar w' = Some o /\ log w' = log w /\ tasks w' = tasks w
  /\ exists s', heap w' !! o = Some s' /\ listening s' = true
     /\ heardAnySpeech s' = true /\ silenceFrames s' = 0
     /\ pcmBuffer s' = pcmBuffer s ++ [p].
Proof.
  intros Hv Hs Hl Hf. apply vadFrame_inv in Hf as (Hd & e & Hc).
  cbn [step]. unfold onMedia. rewrite Hv, Hs, Hl, Hd. cbn [negb]. rewrite Hc.
  cbn [nudgeTimer with_silence with_heard with_buffer].
  destruct (nudgeTimer s) as [id|] eqn:Hn.
  - unfold updSession. cbn [heap clearTimeout w_timers]. rewrite Hs.
    cbn. repeat split; auto. eexists; split; [apply lookup_insert_eq|]. simpl; auto.
  - unfold updSession. rewrite Hs.
    cbn. repeat split; auto. eexists; split; [apply lookup_insert_eq|]. simpl; auto.
Qed.

Lemma onMedia_silence_quiet (w : world) (o : nat) (s : session) (mu p : list Z) :
  stateVar w = Some o -> heap w !! o = Some s -> listening s = true ->
  silenceFrames s + 1 < 12 ->
  vadFrame mu = Some (p, false) ->
  let w' := step (EvMedia mu) w in
  stateVar w' = Some o /\ log w' = log w /\ tasks w' = tasks w
  /\ exists s', heap w' !! o = Some s' /\ listening s' = true
     /\ heardAnySpeech s' = heardAnySpeech s /\ silenceFrames s' = silenceFrames s + 1
     /\ pcmBuffer s' = pcmBuffer s ++ [p].
Proof.
  intros Hv Hs Hl Hq Hf. apply vadFrame_inv in Hf as (Hd & e & Hc).
  cbn [step]. unfold onMedia. rewrite Hv, Hs, Hl, Hd. cbn [negb]. rewrite Hc.
  cbn [silenceFrames heardAnySpeech with_silence with_buffer].
  replace (12 <=? silenceFrames s + 1) with false by (symmetry; apply Z.leb_gt; lia).
  rewrite andb_false_r. unfold updSession. rewrite Hs.
  cbn. repeat split; auto. eexists; split; [apply lookup_insert_eq|]. simpl; auto.
Qed.

Lemma onMedia_silence_finalize (w : world) (o : nat) (s : session) (mu p : list Z) :
  stateVar w = Some o -> heap w !! o = Some s -> listening s = true ->
  heardAnySpeech s = true -> 12 <= silenceFrames s + 1 ->
  vadFrame mu = Some (p, false) ->
  let w' := step (EvMedia mu) w in
  stateVar w' = Some o
  /\ log w' = log w ++ [CallSTT (concat (pcmBuffer s ++ [p]))]
  /\ tasks w' = tasks w ++ [TaskSTT o]
  /\ exists s', heap w' !! o = Some s' /\ listening s' = true
     /\ heardAnySpeech s' = false /\ silenceFrames s' = 0 /\ pcmBuffer s' = [].
Proof.
  intros Hv Hs Hl Hh Hq Hf. apply vadFrame_inv in Hf as (Hd & e & Hc).
  cbn [step]. unfold onMedia. rewrite Hv, Hs, Hl, Hd. cbn [negb]. rewrite Hc.
  cbn [silenceFrames heardAnySpeech with_silence with_buffer].
  rewrite Hh. replace (12 <=? silenceFrames s + 1) with true by (symmetry; apply Z.leb_le; lia).
  cbn [andb]. cbv zeta. rewrite (updSession_some o _ w s Hs). unfold finalizeTurn.
  cbn [heap w_heap]. rewrite lookup_insert_eq.
  cbn [pcmBuffer with_heard with_silence with_buffer].
  destruct (pcmBuffer s ++ [p]) as [|b bs] eqn:E; [now destruct (pcmBuffer s)|].
  erewrite updSession_some by (cbn [heap w_heap]; apply lookup_insert_eq).
  unfold spawn, emit, w_heap, w_tasks, w_log. cbn [stateVar log tasks heap].
  rewrite insert_insert_eq.
  repeat split; auto. eexists; split; [apply lookup_insert_eq|]. simpl; auto.
Qed.

(** *** Runs of media frames *)

Lemma run_app (es1 es2 : list event) (w : world) :
  run (es1 ++ es2) w = run es2 (run es1 w).
Proof. unfold run. apply fold_left_app. Qed.

Lemma run_cons (e : event) (es : list event) (w : world) :
  run (e :: es) w = run es (step e w).
Proof. reflexivity. Qed.

Lemma run_speech (o : nat) (sp sps : list (list Z)) : forall (w : world) (s : session),
  stateVar w = Some o -> heap w !! o = Some s -> listening s = true -> sp <> [] ->
  Forall2 (fun mu p => vadFrame mu = Some (p, true)) sp sps ->
  stateVar (run (map EvMedia sp) w) = Some o
  /\ log (run (map EvMedia sp) w) = log w
  /\ tasks (run (map EvMedia sp) w) = tasks w
  /\ exists s', heap (run (map EvMedia sp) w) !! o = Some s' /\ listening s' = true
     /\ heardAnySpeech s' = true /\ silenceFrames s' = 0
     /\ pcmBuffer s' = pcmBuffer s ++ sps.
Proof.
  revert sps. induction sp as [|mu sp IH]; intros sps w s Hv Hs Hl Hne HF; [congruence|].
  inversion HF as [|? p ? sps' Hp HF']; subst.
  pose proof (onMedia_speech w o s mu p Hv Hs Hl Hp) as H1. cbv zeta in H1.
  destruct H1 as (Hv1 & Hlog1 & Ht1 & s1 & Hs1 & Hl1 & Hh1 & Hz1 & Hb1).
  cbn [map]. rewrite run_cons.
  destruct sp as [|mu' sp'].
  - inversion HF'; subst. cbn [map run fold_left]. rewrite Hlog1, Ht1.
    repeat split; auto. exists s1; auto.
  - destruct (IH sps' _ s1 Hv1 Hs1 Hl1 ltac:(discriminate) HF')
      as (Hv2 & Hlog2 & Ht2 & s2 & Hs2 & Hl2 & Hh2 & Hz2 & Hb2).
    rewrite Hlog2, Ht2, Hlog1, Ht1. repeat split; auto.
    exists s2. rewrite Hb2, Hb1, <- app_assoc. auto.
Qed.

Lemma run_silence_quiet (o : nat) (sl sls : list (list Z)) : forall (w : world) (s : session),
  stateVar w = Some o -> heap w !! o = Some s -> listening s = true ->
  silenceFrames s + Z.of_nat (length sl) < 12 ->
  Forall2 (fun mu p => vadFrame mu = Some (p, false)) sl sls ->
  stateVar (run (map EvMedia sl) w) = Some o
  /\ log (run (map EvMedia sl) w) = log w
  /\ tasks (run (map EvMedia sl) w) = tasks w
  /\ exists s', heap (run (map EvMedia sl) w) !! o = Some s' /\ listening s' = true
     /\ heardAnySpeech s' = heardAnySpeech s
     /\ silenceFrames s' = silenceFrames s + Z.of_nat (length sl)
     /\ pcmBuffer s' = pcmBuffer s ++ sls.
Proof.
  revert sls. induction sl as [|mu sl IH]; intros sls w s Hv Hs Hl Hq HF.
  - inversion HF; subst. cbn [map run fold_left length]. repeat split; auto. exists s.
    rewrite app_nil_r. repeat split; auto. lia.
  - inversion HF as [|? p ? sls' Hp HF']; subst. cbn [length] in Hq.
    pose proof (onMedia_silence_quiet w o s mu p Hv Hs Hl ltac:(lia) Hp) as H1. cbv zeta in H1.
    destruct H1 as (Hv1 & Hlog1 & Ht1 & s1 & Hs1 & Hl1 & Hh1 & Hz1 & Hb1).
    cbn [map]. rewrite run_cons.
    destruct (IH sls' _ s1 Hv1 Hs1 Hl1 ltac:(lia) HF')
      as (Hv2 & Hlog2 & Ht2 & s2 & Hs2 & Hl2 & Hh2 & Hz2 & Hb2).
    rewrite Hlog2, Ht2, Hlog1, Ht1. repeat split; auto.
    exists s2. rewrite Hb2, Hb1, <- app_assoc, Hh2, Hh1, Hz2, Hz1.
    cbn [length]. repeat split; auto. lia.
Qed.

Lemma Forall2_snoc_inv {A B} (R : A -> B -> Prop) (l : list A) (a : A) (l' : list B) :
  Forall2 R (l ++ [a]) l' -> exists l1 b, l' = l1 ++ [b] /\ Forall2 R l l1 /\ R a b.
Proof.
  intros H. apply List.Forall2_app_inv_l in H as (l1 & l2 & H1 & H2 & ->).
  inversion H2 as [|? b ? ? Hb Hn]; subst. inversion Hn; subst. eauto.
Qed.

(** *** The turn pipeline after [finalizeTurn] *)

Lemma delete_last {A} (l : list A) (x : A) : delete (length l) (l ++ [x]) = l.
Proof. rewrite delete_middle. apply app_nil_r. Qed.

Lemma lookup_last {A} (l : list A) (x : A) : (l ++ [x]) !! length l = Some x.
Proof. by apply list_lookup_middle. Qed.

(* ================================================================== *)
(** * Claims *)

(** ** Codec *)

(** C3 (code_bug): the encoder is not bit-exact with the reference mu-law
    law.  Sample 0 encodes to 0xF7 where the reference gives 0xFF; in all,
    231 of the 65536 samples (those of the lowest segment, -115..115)
    encode differently, because the exponent-0 mantissa is taken with a
    shift of 4 instead of 3. *)
Theorem pcm16ToMulawSample_not_reference :
  pcm16ToMulawSample 0 = 0xf7 /\ ulaw_reference 0 = 0xff
  /\ length (filter (fun x => negb (pcm16ToMulawSample x =? ulaw_reference x))
               (zrange (-32768) 65536)) = 231%nat.
Proof. split; [reflexivity | split; [reflexivity | vm_compute; reflexivity]]. Qed.

(** C5 (code_bug): decoding the encoding of sample 0 gives 64, eight times
    the quantisation step (8) of the lowest segment, whereas the decoder
    inverts the reference code of 0 exactly. *)
Theorem roundtrip_zero_off_by_64 :
  decodeSample (pcm16ToMulawSample 0) = 64 /\ quant_step 0 = 8
  /\ Z.abs (decodeSample (pcm16ToMulawSample 0) - 0) > quant_step 0
  /\ decodeSample (ulaw_reference 0) = 0.
Proof. repeat split; reflexivity. Qed.

(** C9: on any byte buffer the decoder returns a buffer of exactly twice
    the input length (it is a function, hence deterministic), and the
    empty buffer decodes to the empty buffer. *)
Theorem decodeMulawToPcm16_length (mu : list Z) :
  Forall (fun b => 0 <= b < 256) mu ->
  exists out, decodeMulawToPcm16 mu = Some out /\ length out = (2 * length mu)%nat.
Proof.
  induction mu as [|b mu IH]; intros Hf; [exists []; split; reflexivity|].
  apply Forall_cons in Hf as [Hb Hf]. cbv beta in Hb.
  destruct (IH Hf) as (out & Hd & Hl).
  destruct (writeInt16LE_decodeSample b Hb) as (bs & Hw & Hbs).
  exists (bs ++ out). cbn [decodeMulawToPcm16]. rewrite Hw, Hd.
  split; [reflexivity|]. rewrite length_app, Hbs, Hl. simpl. lia.
Qed.

Lemma decodeMulawToPcm16_length_witness :
  Forall (fun b => 0 <= b < 256) [0; 127; 255]
  /\ exists out, decodeMulawToPcm16 [0; 127; 255] = Some out
                 /\ length out = (2 * length [0; 127; 255])%nat.
Proof.
  assert (H : Forall (fun b => 0 <= b < 256) [0; 127; 255])
    by (repeat constructor; lia).
  split; [exact H | exact (decodeMulawToPcm16_length [0; 127; 255] H)].
Defined.

(** C10: every byte decodes to a sample in [-32124, 32124], which
    [writeInt16LE] accepts. *)
Theorem decodeSample_in_int16 (b : Z) :
  0 <= b < 256 ->
  -32124 <= decodeSample b <= 32124 /\ writeInt16LE (decodeSample b) <> None.
Proof.
  intros Hb. split; [now apply decodeSample_bounds|].
  destruct (writeInt16LE_decodeSample b Hb) as (bs & -> & _). discriminate.
Qed.

Lemma decodeSample_in_int16_witness :
  0 <= 0 < 256 /\ -32124 <= decodeSample 0 <= 32124
  /\ writeInt16LE (decodeSample 0) <> None.
Proof.
  assert (H : 0 <= 0 < 256) by lia.
  split; [exact H | exact (decodeSample_in_int16 0 H)].
Defined.

(** ** Voice activity detection *)

(** C4, counterexample: on the zero-length frame the RMS is [Math.sqrt(0 / 0)],
    NaN, not 0 (the classification itself is [isSpeech = false]). *)
Lemma classify_empty_energy_nan :
  classify [] = Some (false, RmsNaN)
  /\ ~ (exists r, classify [] = Some (false, r) /\ rms_is_zero r = true).
Proof.
  split; [reflexivity|]. intros (r & Hc & Hz).
  vm_compute in Hc. injection Hc as <-. discriminate.
Qed.

(** C4, amended: a frame of [n] zero samples ([2 n] zero bytes) is
    classified without error as non-speech; its energy is 0 when [n > 0]
    and NaN when the frame is empty. *)
Theorem classify_zero_frames (n : nat) :
  exists r, classify (repeat 0 (2 * n)) = Some (false, r)
    /\ match n with O => r = RmsNaN | S _ => rms_is_zero r = true end.
Proof.
  destruct n as [|n]; [exists RmsNaN; split; reflexivity|].
  destruct (sumSquares_zero (S n)) as (q & Hs & Hq).
  unfold classify. rewrite Hs, repeat_length.
  set (count := (inject_Z (Z.of_nat (2 * S n)) / 2)%Q).
  assert (Hc : Qeq_bool count 0 = false).
  { destruct (Qeq_bool count 0) eqn:E; [|reflexivity].
    apply Qeq_bool_iff in E. unfold count, Qeq in E. simpl in E. lia. }
  assert (Hz : (q / count == 0)%Q) by (rewrite Hq; apply Qmult_0_l).
  unfold rmsOf. rewrite Hc. exists (RmsSqrt (q / count)). split.
  - unfold gtThresh. f_equal. f_equal.
    assert (Hle : Qle_bool (q / count) (SPEECH_THRESH * SPEECH_THRESH) = true).
    { apply Qle_bool_iff. rewrite Hz. unfold Qle. simpl. lia. }
    now rewrite Hle.
  - simpl. now apply Qeq_bool_iff.
Qed.

(** ** Frame scheduler *)

(** C2: while the socket stays open, [sendMulawStream] sends
    ceil(length / 160) media messages, each followed by a 20 ms sleep; the
    frames are 160 bytes except possibly a shorter, unpadded last one, their
    base64 payloads decode back to them and their concatenation in sending
    order is the payload (10 frames for 1600 bytes).  When the socket is
    first observed closed at the check of frame [k], exactly the first [k]
    frames have been sent and the loop ends without error. *)
Theorem sendMulawStream_frames (sid : string) (buf : list Z) :
  Forall (fun b => 0 <= b < 256) buf ->
  exists frames : list (list Z),
    sendMulawStream (fun _ => true) sid buf = flat_map (emitFrame sid) frames
    /\ length frames = ((length buf + 159) / 160)%nat
    /\ concat frames = buf
    /\ Forall (fun f => base64_decode (msg_payload (mediaMessage sid f)) = Some f) frames
    /\ Forall (fun f => 1 <= length f <= 160)%nat frames
    /\ Forall (fun f => length f = 160%nat) (removelast frames)
    /\ (length buf = 1600%nat -> length frames = 10%nat)
    /\ (forall (ready : nat -> bool) (k : nat),
          (forall j, (j < k)%nat -> ready j = true) -> ready k = false ->
          sendMulawStream ready sid buf = flat_map (emitFrame sid) (firstn k frames)).
Proof.
  intros Hbytes.
  assert (Hloop : forall ready, sendMulawStream ready sid buf
                  = emitWhileOpen ready sid 0 (chunksOf (S (length buf)) buf)).
  { intros ready. unfold sendMulawStream. rewrite sendLoop_chunks by lia. reflexivity. }
  destruct (chunksOf_spec (S (length buf)) buf) as (Hc & Hn & Hb & Hr); [lia|].
  exists (chunksOf (S (length buf)) buf). repeat split; try assumption.
  - rewrite Hloop. apply emitWhileOpen_all.
  - rewrite <- Hc in Hbytes. apply List.Forall_concat in Hbytes.
    eapply Forall_impl; [exact Hbytes|]. intros f Hf. apply base64_roundtrip, Hf.
  - intros Hlen. rewrite Hn, Hlen. reflexivity.
  - intros ready k Hopen Hclosed. rewrite Hloop.
    apply (emitWhileOpen_until ready sid _ 0 k); [intros j Hj; apply Hopen; lia | exact Hclosed].
Qed.

Lemma sendMulawStream_frames_witness :
  Forall (fun b => 0 <= b < 256) (repeat 0 1600)
  /\ exists frames : list (list Z),
    sendMulawStream (fun _ => true) "MZ" (repeat 0 1600)
      = flat_map (emitFrame "MZ") frames
    /\ length frames = ((length (repeat 0 1600) + 159) / 160)%nat
    /\ concat frames = repeat 0 1600
    /\ Forall (fun f => base64_decode (msg_payload (mediaMessage "MZ" f)) = Some f) frames
    /\ Forall (fun f => 1 <= length f <= 160)%nat frames
    /\ Forall (fun f => length f = 160%nat) (removelast frames)
    /\ (length (repeat 0 1600) = 1600%nat -> length frames = 10%nat)
    /\ (forall (ready : nat -> bool) (k : nat),
          (forall j, (j < k)%nat -> ready j = true) -> ready k = false ->
          sendMulawStream ready "MZ" (repeat 0 1600)
            = flat_map (emitFrame "MZ") (firstn k frames)).
Proof.
  assert (H : Forall (fun b => 0 <= b < 256) (repeat 0 1600)).
  { apply List.Forall_forall. intros x Hx. apply repeat_spec in Hx. lia. }
  split; [exact H | exact (sendMulawStream_frames "MZ" (repeat 0 1600) H)].
Defined.

(** C1 (the buffer handed on). A fresh session hears one loud frame and then
    12 silent frames: the turn is finalized once, and the audio handed to
    recognition is the loud frame followed by the 12 silent frames, because
    the handler appends every frame to [pcmBuffer] before running the VAD. *)
Lemma turn_buffer_includes_silence :
  exists pcmSpeech pcmSilence,
    decodeMulawToPcm16 speechFrame = Some pcmSpeech
    /\ decodeMulawToPcm16 silenceFrame = Some pcmSilence
    /\ vadFrame speechFrame = Some (pcmSpeech, true)
    /\ vadFrame silenceFrame = Some (pcmSilence, false)
    /\ log (run (EvStart "MZ" None :: map EvMedia (speechFrame :: repeat silenceFrame 12))
              initWorld)
       = [CallSTT (pcmSpeech ++ concat (repeat pcmSilence 12))]
    /\ length (pcmSpeech ++ concat (repeat pcmSilence 12)) = 4160%nat
    /\ length pcmSpeech = 320%nat.
Proof.
  exists (concat (repeat [132; 130] 160)), (repeat 0 320).
  split_and!; vm_compute; reflexivity.
Qed.

(** C1 (as the code has it). On a session that is listening, N >= 1 speech
    frames followed by exactly 12 silence frames finalize the turn exactly
    once: one recognition call and one pending recognition task are added.
    The audio handed on is whatever the buffer held before, then the decoded
    speech frames, then the decoded 12 silence frames. After the call the
    buffer is empty, [heardAnySpeech] is false and the silence count is 0. *)
Theorem media_turn_finalization (w : world) (o : nat) (s : session)
    (sp sl sps sls : list (list Z)) :
  stateVar w = Some o -> heap w !! o = Some s -> listening s = true ->
  sp <> [] -> Forall2 (fun mu p => vadFrame mu = Some (p, true)) sp sps ->
  length sl = 12%nat -> Forall2 (fun mu p => vadFrame mu = Some (p, false)) sl sls ->
  log (run (map EvMedia (sp ++ sl)) w)
    = log w ++ [CallSTT (concat (pcmBuffer s) ++ concat sps ++ concat sls)]
  /\ tasks (run (map EvMedia (sp ++ sl)) w) = tasks w ++ [TaskSTT o]
  /\ exists s', heap (run (map EvMedia (sp ++ sl)) w) !! o = Some s'
     /\ listening s' = true /\ pcmBuffer s' = [] /\ heardAnySpeech s' = false
     /\ silenceFrames s' = 0.
Proof.
  intros Hv Hs Hl Hne Hsp Hlen Hsl.
  destruct (run_speech o sp sps w s Hv Hs Hl Hne Hsp)
    as (Hv1 & Hlog1 & Ht1 & s1 & Hs1 & Hl1 & Hh1 & Hz1 & Hb1).
  assert (Hsl0 : sl <> []) by (intros ->; discriminate).
  destruct (exists_last Hsl0) as (sl' & a & ->).
  destruct (Forall2_snoc_inv _ _ _ _ Hsl) as (sls' & pa & -> & Hsl' & Ha).
  rewrite length_app in Hlen. cbn [length] in Hlen.
  destruct (run_silence_quiet o sl' sls' _ s1 Hv1 Hs1 Hl1 ltac:(lia) Hsl')
    as (Hv2 & Hlog2 & Ht2 & s2 & Hs2 & Hl2 & Hh2 & Hz2 & Hb2).
  rewrite Hz1 in Hz2. rewrite Hh1 in Hh2.
  pose proof (onMedia_silence_finalize _ o s2 a pa Hv2 Hs2 Hl2 Hh2 ltac:(lia) Ha) as H3.
  cbv zeta in H3. destruct H3 as (Hv3 & Hlog3 & Ht3 & s3 & Hs3 & Hl3 & Hh3 & Hz3 & Hb3).
  rewrite !map_app, !run_app. cbn [map]. rewrite run_cons. cbn [run fold_left].
  rewrite Hlog3, Ht3, Hlog2, Ht2, Hlog1, Ht1, Hb2, Hb1.
  split; [|split; [reflexivity | exists s3; auto]].
  rewrite !concat_app. cbn [concat]. rewrite !app_nil_r, !app_assoc. reflexivity.
Qed.

Lemma media_turn_finalization_witness :
  exists s : session,
    stateVar (run [EvStart "MZ" None] initWorld) = Some 0%nat
    /\ heap (run [EvStart "MZ" None] initWorld) !! 0%nat = Some s
    /\ log (run (map EvMedia ([speechFrame; speechFrame] ++ repeat silenceFrame 12))
              (run [EvStart "MZ" None] initWorld))
       = log (run [EvStart "MZ" None] initWorld)
         ++ [CallSTT (concat (pcmBuffer s) ++ concat [concat (repeat [132; 130] 160); concat (repeat [132; 130] 160)]
                      ++ concat (repeat (repeat 0 320) 12))].
Proof.
  assert (Hx : option_map listening (heap (run [EvStart "MZ" None] initWorld) !! 0%nat)
                = Some true) by (vm_compute; reflexivity).
  destruct (heap (run [EvStart "MZ" None] initWorld) !! 0%nat) as [s|] eqn:E;
    [|discriminate Hx].
  injection Hx as Hl.
  assert (Hv : stateVar (run [EvStart "MZ" None] initWorld) = Some 0%nat) by (vm_compute; reflexivity).
  exists s. split; [exact Hv|]. split; [reflexivity|].
  apply (media_turn_finalization (run [EvStart "MZ" None] initWorld) 0%nat s
           [speechFrame; speechFrame] (repeat silenceFrame 12)
           [concat (repeat [132; 130] 160); concat (repeat [132; 130] 160)] (repeat (repeat 0 320) 12) Hv E Hl).
  - discriminate.
  - repeat (apply List.Forall2_cons; [vm_compute; reflexivity|]). apply List.Forall2_nil.
  - reflexivity.
  - cbn [repeat]. repeat (apply List.Forall2_cons; [vm_compute; reflexivity|]). apply List.Forall2_nil.
Defined.

(** C6. [finalizeTurn] on an empty buffer changes nothing. On a non-empty
    buffer it clears the buffer and the silence count, makes one recognition
    call and waits for it; if recognition then fails ([None]) or returns the
    empty text, the turn ends there: the session keeps its history and stays
    listening, no generation or synthesis call is logged, no task is left
    pending, and the timers and the current session are untouched. *)
Theorem finalizeTurn_empty_text_aborts (w : world) (o : nat) (s : session) :
  heap w !! o = Some s ->
  (pcmBuffer s = [] -> finalizeTurn o w = w)
  /\ (pcmBuffer s <> [] -> listening s = true ->
      forall r : option string, r = None \/ r = Some ""%string ->
      heap (step (EvResume (length (tasks w)) (RText r)) (finalizeTurn o w)) !! o
        = Some (with_silence 0 (with_buffer [] s))
      /\ listening (with_silence 0 (with_buffer [] s)) = true
      /\ context (with_silence 0 (with_buffer [] s)) = context s
      /\ log (step (EvResume (length (tasks w)) (RText r)) (finalizeTurn o w))
         = log w ++ [CallSTT (concat (pcmBuffer s))]
      /\ tasks (step (EvResume (length (tasks w)) (RText r)) (finalizeTurn o w)) = tasks w
      /\ timers (step (EvResume (length (tasks w)) (RText r)) (finalizeTurn o w)) = timers w
      /\ stateVar (step (EvResume (length (tasks w)) (RText r)) (finalizeTurn o w))
         = stateVar w).
Proof.
  intros Hs. split.
  - intros Hb. unfold finalizeTurn. rewrite Hs, Hb. reflexivity.
  - intros Hb Hl r Hr. unfold finalizeTurn. rewrite Hs.
    destruct (pcmBuffer s) as [|b bs] eqn:E; [congruence|].
    rewrite (updSession_some o _ w s Hs). cbn [step]. unfold onResume, spawn, emit.
    cbn [tasks w_tasks w_log w_heap]. rewrite lookup_last.
    cbv zeta. cbn [tasks w_tasks w_log w_heap]. rewrite delete_last.
    unfold onSTT. destruct Hr as [-> | ->]; cbn -[insert lookup];
      rewrite ?lookup_insert_eq; repeat split; auto.
Qed.

Lemma finalizeTurn_empty_text_aborts_witness :
  exists s : session,
    heap (run [EvStart "MZ" None; EvMedia speechFrame] initWorld) !! 0%nat = Some s
    /\ pcmBuffer s <> [] /\ listening s = true
    /\ log (step (EvResume 0 (RText None))
              (finalizeTurn 0 (run [EvStart "MZ" None; EvMedia speechFrame] initWorld)))
       = [CallSTT (concat (pcmBuffer s))].
Proof.
  assert (Hx : option_map (fun s => (match pcmBuffer s with [] => false | _ => true end,
                                      listening s))
                (heap (run [EvStart "MZ" None; EvMedia speechFrame] initWorld) !! 0%nat)
                = Some (true, true)) by (vm_compute; reflexivity).
  destruct (heap (run [EvStart "MZ" None; EvMedia speechFrame] initWorld) !! 0%nat)
    as [s|] eqn:E; [|discriminate Hx].
  injection Hx as Hb0 Hl.
  assert (Hb : pcmBuffer s <> []) by (destruct (pcmBuffer s); discriminate).
  exists s. split; [reflexivity|]. split; [exact Hb|]. split; [exact Hl|].
  destruct (finalizeTurn_empty_text_aborts _ 0%nat s E) as [_ H].
  destruct (H Hb Hl None (or_introl eq_refl)) as (_ & _ & _ & Hlog & _).
  assert (Ht : length (tasks (run [EvStart "MZ" None; EvMedia speechFrame] initWorld)) = 0%nat)
    by (vm_compute; reflexivity).
  assert (Hl0 : log (run [EvStart "MZ" None; EvMedia speechFrame] initWorld) = [])
    by (vm_compute; reflexivity).
  rewrite Ht, Hl0 in Hlog. exact Hlog.
Defined.




(** C8. The stop path clears the nudge timer, but the close handler only
    stops the keep-alive interval: after a start followed by a socket close,
    the nudge scheduled at start is still pending, and when it fires it
    starts synthesizing speech for a caller who is gone. Stop twice or stop
    after close raise nothing (the handlers are total). *)
Theorem close_leaves_nudge_pending :
  timers (run [EvStart "MZ" None; EvStop] initWorld) = ∅
  /\ timers (run [EvStart "MZ" None; EvClose] initWorld) = {[0%nat := 0%nat]}
  /\ wsOpen (run [EvStart "MZ" None; EvClose] initWorld) = false
  /\ log (run [EvStart "MZ" None; EvClose; EvFire 0 0] initWorld)
     = [CallSynth (nth 0 NUDGE_LINES ""%string)]
  /\ run [EvStart "MZ" None; EvStop; EvStop] initWorld
     = run [EvStart "MZ" None; EvStop] initWorld.
Proof. split_and!; vm_compute; reflexivity. Qed.

(* ================================================================== *)
(** * Further properties of the code *)

(* ------------------------------------------------------------------ *)
(** *** The mu-law codec *)

(** X1. The decoder is strictly increasing over the bytes 0..127, whose
    samples are [<= 0], and strictly decreasing over 128..255, whose samples
    are [>= 0]; flipping bit 7 of a byte negates its sample. *)
Theorem decodeSample_shape (b1 b2 : Z) :
  (0 <= b1 < b2 /\ b2 <= 127 -> decodeSample b1 < decodeSample b2 <= 0)
  /\ (128 <= b1 < b2 /\ b2 <= 255 -> 0 <= decodeSample b2 < decodeSample b1)
  /\ (0 <= b1 < 256 -> decodeSample (Z.lxor b1 128) = - decodeSample b1).
Proof.
  assert (Hc : forall b, 0 <= b < 256 -> decode_shape_ok b = true).
  { intros b Hb. apply (forallb_zrange _ 0 256); [vm_compute; reflexivity | lia]. }
  assert (Hk : forall b, 0 <= b < 256 ->
     (b < 127 -> decodeSample b < decodeSample (b + 1))
     /\ (b <= 127 -> decodeSample b <= 0)
     /\ (128 <= b < 255 -> decodeSample (b + 1) < decodeSample b)
     /\ (128 <= b -> 0 <= decodeSample b)
     /\ decodeSample (Z.lxor b 128) = - decodeSample b).
  { intros b Hb. specialize (Hc b Hb). unfold decode_shape_ok in Hc.
    repeat rewrite andb_true_iff in Hc. destruct Hc as [[[[H1 H2] H3] H4] H5].
    rewrite implb_true_iff in H1, H2, H3, H4. rewrite Z.eqb_eq in H5.
    repeat split; intros.
    - apply Z.ltb_lt, H1, Z.ltb_lt; lia.
    - apply Z.leb_le, H2, Z.leb_le; lia.
    - apply Z.ltb_lt, H3, andb_true_iff; split; [apply Z.leb_le | apply Z.ltb_lt]; lia.
    - apply Z.leb_le, H4, Z.leb_le; lia.
    - exact H5. }
  split; [|split].
  - intros [[H0 H12] H2]. split; [|apply Hk; lia].
    replace b2 with (b1 + Z.of_nat (Z.to_nat (b2 - b1))) by lia.
    assert (Hpos : (0 < Z.to_nat (b2 - b1))%nat) by lia.
    assert (Hle : b1 + Z.of_nat (Z.to_nat (b2 - b1)) <= 127) by lia.
    revert Hpos Hle. generalize (Z.to_nat (b2 - b1)) as k.
    induction k as [|k IH]; intros Hpos Hle; [lia|].
    destruct k as [|k].
    + replace (b1 + Z.of_nat 1) with (b1 + 1) by lia. apply Hk; lia.
    + specialize (IH ltac:(lia) ltac:(lia)).
      replace (b1 + Z.of_nat (S (S k))) with ((b1 + Z.of_nat (S k)) + 1) by lia.
      assert (decodeSample (b1 + Z.of_nat (S k)) < decodeSample (b1 + Z.of_nat (S k) + 1))
        by (apply Hk; lia). lia.
  - intros [[H0 H12] H2]. split; [apply Hk; lia|].
    replace b2 with (b1 + Z.of_nat (Z.to_nat (b2 - b1))) by lia.
    assert (Hpos : (0 < Z.to_nat (b2 - b1))%nat) by lia.
    assert (Hle : b1 + Z.of_nat (Z.to_nat (b2 - b1)) <= 255) by lia.
    revert Hpos Hle. generalize (Z.to_nat (b2 - b1)) as k.
    induction k as [|k IH]; intros Hpos Hle; [lia|].
    destruct k as [|k].
    + replace (b1 + Z.of_nat 1) with (b1 + 1) by lia. apply Hk; lia.
    + specialize (IH ltac:(lia) ltac:(lia)).
      replace (b1 + Z.of_nat (S (S k))) with ((b1 + Z.of_nat (S k)) + 1) by lia.
      assert (decodeSample (b1 + Z.of_nat (S k) + 1) < decodeSample (b1 + Z.of_nat (S k)))
        by (apply Hk; lia). lia.
  - intros Hb. apply Hk; lia.
Qed.

Lemma decodeSample_shape_witness :
  (0 <= 0 < 127 /\ 127 <= 127 -> decodeSample 0 < decodeSample 127 <= 0)
  /\ (128 <= 0 < 127 /\ 127 <= 255 -> 0 <= decodeSample 127 < decodeSample 0)
  /\ (0 <= 0 < 256 -> decodeSample (Z.lxor 0 128) = - decodeSample 0).
Proof. exact (decodeSample_shape 0 127). Defined.

(** X2. The encoder is sign-symmetric: for [1 <= x <= 32767] the code of
    [-x] is the code of [x] with bit 7 flipped. *)
Theorem pcm16ToMulawSample_sign (x : Z) :
  1 <= x <= 32767 -> pcm16ToMulawSample (- x) = Z.lxor (pcm16ToMulawSample x) 128.
Proof.
  intros Hx. apply Z.eqb_eq.
  apply (forallb_zrange enc_sym_ok 1 32767); [vm_compute; reflexivity | lia].
Qed.

Lemma pcm16ToMulawSample_sign_witness :
  1 <= 1000 <= 32767
  /\ pcm16ToMulawSample (Z.opp 1000) = Z.lxor (pcm16ToMulawSample 1000) 128.
Proof.
  assert (H : 1 <= 1000 <= 32767) by lia.
  exact (conj H (pcm16ToMulawSample_sign 1000 H)).
Defined.

(** X3. Encoding then decoding is monotone: a louder 16-bit sample never
    comes back quieter. *)
Theorem encode_decode_monotone (x y : Z) :
  -32768 <= x -> x <= y -> y <= 32767 ->
  decodeSample (pcm16ToMulawSample x) <= decodeSample (pcm16ToMulawSample y).
Proof.
  intros Hx Hxy Hy.
  assert (Hk : forall z, -32768 <= z < 32767 ->
     decodeSample (pcm16ToMulawSample z) <= decodeSample (pcm16ToMulawSample (z + 1))).
  { intros z Hz. apply Z.leb_le.
    apply (forallb_zrange enc_mono_ok (-32768) 65535); [vm_compute; reflexivity | lia]. }
  replace y with (x + Z.of_nat (Z.to_nat (y - x))) by lia.
  assert (Hle : x + Z.of_nat (Z.to_nat (y - x)) <= 32767) by lia.
  revert Hle. generalize (Z.to_nat (y - x)) as k.
  induction k as [|k IH]; intros Hle; [rewrite Z.add_0_r; lia|].
  specialize (IH ltac:(lia)).
  replace (x + Z.of_nat (S k)) with ((x + Z.of_nat k) + 1) by lia.
  etransitivity; [exact IH | apply Hk; lia].
Qed.

Lemma encode_decode_monotone_witness :
  -32768 <= -5 /\ -5 <= 300 /\ 300 <= 32767
  /\ decodeSample (pcm16ToMulawSample (-5)) <= decodeSample (pcm16ToMulawSample 300).
Proof.
  assert (H1 : -32768 <= -5) by lia. assert (H2 : -5 <= 300) by lia.
  assert (H3 : 300 <= 32767) by lia.
  exact (conj H1 (conj H2 (conj H3 (encode_decode_monotone (-5) 300 H1 H2 H3)))).
Defined.

(** X4. Re-encoding a decoded byte gives the byte back, for every byte
    outside the lowest segment (bits 4..6 not all set). *)
Theorem reencode_decoded_byte (b : Z) :
  0 <= b < 256 -> Z.land b 0x70 <> 0x70 -> pcm16ToMulawSample (decodeSample b) = b.
Proof.
  intros Hb Hs.
  assert (H : reencode_ok b = true).
  { apply (forallb_zrange _ 0 256); [vm_compute; reflexivity | lia]. }
  unfold reencode_ok in H. rewrite implb_true_iff in H.
  apply Z.eqb_eq, H. now apply negb_true_iff, Z.eqb_neq.
Qed.

Lemma reencode_decoded_byte_witness :
  0 <= 0 < 256 /\ Z.land 0 0x70 <> 0x70 /\ pcm16ToMulawSample (decodeSample 0) = 0.
Proof.
  assert (H1 : 0 <= 0 < 256) by lia.
  assert (H2 : Z.land 0 0x70 <> 0x70) by discriminate.
  exact (conj H1 (conj H2 (reencode_decoded_byte 0 H1 H2))).
Defined.

(* ------------------------------------------------------------------ *)
(** *** Buffers: the encoder, the VAD and the WAV container *)

Lemma band_ff_range (a : Z) : 0 <= Js.band a 0xff < 256.
Proof.
  unfold Js.band. change (Js.toInt32 0xff) with (Z.ones 8).
  rewrite Z.land_ones by lia. apply Z.mod_pos_bound. lia.
Qed.

(** X5. [encodePcm16ToMulaw] throws exactly on a buffer of odd length; otherwise it returns one byte (0..255) per 16-bit sample. *)
Theorem encodePcm16ToMulaw_shape (pcm : list Z) :
  (encodePcm16ToMulaw pcm = None <-> Nat.Odd (length pcm))
  /\ (forall mu, encodePcm16ToMulaw pcm = Some mu ->
        (2 * length mu = length pcm)%nat /\ Forall (fun b => 0 <= b < 256) mu).
Proof.
  remember (length pcm) as n eqn:En. revert pcm En.
  induction n as [n IH] using (well_founded_induction lt_wf). intros pcm En.
  destruct pcm as [|lo [|hi rest]]; simpl in En |- *; subst n.
  - split.
    + split; [discriminate|]. intros [k Hk]. lia.
    + intros mu [= <-]. split; [reflexivity | constructor].
  - split.
    + split; [intros _; exists 0%nat; lia | reflexivity].
    + intros mu [=].
  - destruct (IH (length rest) ltac:(lia) rest eq_refl) as [IH1 IH2].
    assert (Hodd : Nat.Odd (S (S (length rest))) <-> Nat.Odd (length rest)).
    { split; intros [k Hk]; [exists (k - 1)%nat | exists (S k)]; lia. }
    destruct (encodePcm16ToMulaw rest) as [out|] eqn:Er.
    + split.
      * split; [discriminate|]. intros Ho. apply Hodd, IH1 in Ho. discriminate.
      * intros mu [= <-]. destruct (IH2 out eq_refl) as [Hl Hf]. simpl.
        split; [lia|]. constructor; [apply band_ff_range | exact Hf].
    + split.
      * split; [intros _; apply Hodd, IH1; reflexivity | reflexivity].
      * intros mu [=].
Qed.

Lemma readInt16LE_write (v : Z) : -32768 <= v <= 32767 ->
  readInt16LE (Z.land v 255) (Z.land (Z.shiftr v 8) 255) = v.
Proof.
  intros Hv. unfold readInt16LE. change 255 with (Z.ones 8).
  rewrite !Z.land_ones, Z.shiftr_div_pow2 by lia. change (2 ^ 8) with 256.
  assert (E1 := Z.div_mod v 256 ltac:(lia)).
  assert (B1 := Z.mod_pos_bound v 256 ltac:(lia)).
  assert (E2 := Z.div_mod (v / 256) 256 ltac:(lia)).
  assert (B2 := Z.mod_pos_bound (v / 256) 256 ltac:(lia)).
  assert (Q : -128 <= v / 256 < 128).
  { split; [apply Z.div_le_lower_bound | apply Z.div_lt_upper_bound]; lia. }
  rewrite Z.geb_leb. destruct (Z.leb_spec 32768 (v mod 256 + 256 * ((v / 256) mod 256))); lia.
Qed.

Lemma sumSquares_decode (mu : list Z) :
  Forall (fun b => 0 <= b < 256) mu ->
  exists p acc, decodeMulawToPcm16 mu = Some p /\ length p = (2 * length mu)%nat
    /\ sumSquares p = Some acc
    /\ Qeq acc (inject_Z (fold_right (fun b a => decodeSample b * decodeSample b + a)%Z 0%Z mu)
                / inject_Z 1073741824)%Q.
Proof.
  induction mu as [|b mu IH]; intros Hf.
  - exists [], 0%Q. split_and!; try reflexivity.
  - apply Forall_cons in Hf as [Hb Hf]. cbv beta in Hb.
    destruct (IH Hf) as (p & acc & Hd & Hl & Hs & Hq).
    pose proof (decodeSample_bounds b Hb) as Hr.
    unfold writeInt16LE.
    exists ([Z.land (decodeSample b) 255; Z.land (Z.shiftr (decodeSample b) 8) 255] ++ p).
    cbn [decodeMulawToPcm16]. unfold writeInt16LE.
    replace ((-32768 <=? decodeSample b) && (decodeSample b <=? 32767)) with true
      by (symmetry; apply andb_true_iff; split; apply Z.leb_le; lia).
    rewrite Hd. cbn [app sumSquares]. rewrite Hs.
    eexists. split_and!; [reflexivity | simpl; lia | reflexivity | ..].
    rewrite readInt16LE_write by lia. cbn [fold_right].
    rewrite Hq, inject_Z_plus, inject_Z_mult.
    field.
Qed.

(** X6. The voice-activity verdict of a non-empty frame of bytes: it is speech exactly when the mean of the squared decoded samples exceeds (0.015 * 32768)^2, i.e. when [40000 * sum(s^2) > 9 * 2^30 * n]. *)
Theorem vadFrame_speech (mu : list Z) :
  mu <> [] -> Forall (fun b => 0 <= b < 256) mu ->
  exists p, vadFrame mu = Some (p, 9 * 1073741824 * Z.of_nat (length mu)
      <? 40000 * fold_right (fun b acc => decodeSample b * decodeSample b + acc) 0 mu).
Proof.
  intros Hne Hf.
  destruct (sumSquares_decode mu Hf) as (p & acc & Hd & Hl & Hs & Hq).
  exists p. unfold vadFrame, classify, rmsOf. rewrite Hd, Hs, Hl.
  set (S := fold_right _ 0 mu) in *.
  destruct (Z.of_nat (2 * length mu)) eqn:En.
  - destruct mu; [congruence | simpl in En; lia].
  - replace (Qeq_bool (inject_Z (Z.pos p0) / 2) 0) with false by reflexivity.
    cbn [gtThresh]. f_equal. f_equal.
    destruct (Z.ltb_spec (9 * 1073741824 * Z.of_nat (length mu)) (40000 * S)) as [Hlt|Hge];
    destruct (Qle_bool (acc / (inject_Z (Z.pos p0) / 2)) (SPEECH_THRESH * SPEECH_THRESH)) eqn:E;
    try reflexivity; exfalso.
    + apply Qle_bool_iff in E. rewrite Hq in E. unfold Qle in E. simpl in E. lia.
    + assert (E' : ~ (acc / (inject_Z (Z.pos p0) / 2) <= SPEECH_THRESH * SPEECH_THRESH)%Q)
        by (rewrite <- Qle_bool_iff; congruence).
      apply Qnot_le_lt in E'. rewrite Hq in E'. unfold Qlt in E'. simpl in E'. lia.
  - lia.
Qed.

Lemma vadFrame_speech_witness :
  [0] <> [] /\ Forall (fun b => 0 <= b < 256) [0]
  /\ exists p, vadFrame [0] = Some (p, 9 * 1073741824 * Z.of_nat (length [0])
      <? 40000 * fold_right (fun b acc => decodeSample b * decodeSample b + acc) 0 [0]).
Proof.
  assert (H1 : [0] <> []) by discriminate.
  assert (H2 : Forall (fun b => 0 <= b < 256) [0]) by (repeat constructor; lia).
  exact (conj H1 (conj H2 (vadFrame_speech [0] H1 H2))).
Defined.


Lemma le32_sum (v : Z) : 0 <= v <= 4294967295 ->
  Z.land v 255 + 256 * Z.land (Z.shiftr v 8) 255 + 65536 * Z.land (Z.shiftr v 16) 255
  + 16777216 * Z.land (Z.shiftr v 24) 255 = v.
Proof.
  intros Hv. change 255 with (Z.ones 8). rewrite !Z.land_ones by lia.
  rewrite !Z.shiftr_div_pow2 by lia.
  change (2 ^ 8) with 256. change (2 ^ 16) with 65536. change (2 ^ 24) with 16777216.
  assert (E1 := Z.div_mod v 256 ltac:(lia)).
  assert (E2 := Z.div_mod (v / 256) 256 ltac:(lia)).
  assert (E3 := Z.div_mod (v / 256 / 256) 256 ltac:(lia)).
  rewrite !Z.div_div in E2, E3 by lia. 
  rewrite Z.div_div in E3 by lia. 
  change (256 * 256) with 65536 in *. change (65536 * 256) with 16777216 in *.
  assert (B : 0 <= v / 16777216 < 256) by (split; [apply Z.div_pos | apply Z.div_lt_upper_bound]; lia).
  rewrite (Z.mod_small (v / 16777216)) by lia.
  lia.
Qed.

Lemma writeUInt32LE_ok (buf : list Z) (v : Z) (off : nat) :
  0 <= v <= 4294967295 -> (off + 4 <= length buf)%nat ->
  writeUInt32LE buf v off = Some (putBytes buf off [Z.land v 255; Z.land (Z.shiftr v 8) 255;
                               Z.land (Z.shiftr v 16) 255; Z.land (Z.shiftr v 24) 255]).
Proof.
  intros Hv Hl. unfold writeUInt32LE.
  replace ((0 <=? v) && (v <=? 4294967295) && (off + 4 <=? length buf)%nat) with true; [reflexivity|].
  symmetry. apply andb_true_iff; split; [apply andb_true_iff; split|]; [apply Z.leb_le; lia | apply Z.leb_le; lia | apply Nat.leb_le; lia].
Qed.

Lemma wav_eq (pcm : list Z) : Z.of_nat (length pcm) <= 4294967259 ->
  pcm16ToWav8kMono pcm = Some (
    [82; 73; 70; 70;
     Z.land (36 + Z.of_nat (length pcm)) 255; Z.land (Z.shiftr (36 + Z.of_nat (length pcm)) 8) 255;
     Z.land (Z.shiftr (36 + Z.of_nat (length pcm)) 16) 255; Z.land (Z.shiftr (36 + Z.of_nat (length pcm)) 24) 255;
     87; 65; 86; 69; 102; 109; 116; 32; 16; 0; 0; 0; 1; 0; 1; 0;
     64; 31; 0; 0; 128; 62; 0; 0; 2; 0; 16; 0; 100; 97; 116; 97;
     Z.land (Z.of_nat (length pcm)) 255; Z.land (Z.shiftr (Z.of_nat (length pcm)) 8) 255;
     Z.land (Z.shiftr (Z.of_nat (length pcm)) 16) 255; Z.land (Z.shiftr (Z.of_nat (length pcm)) 24) 255]
    ++ pcm).
Proof.
  intros H.
  assert (E1 : (0 <=? 36 + Z.of_nat (length pcm)) = true) by (apply Z.leb_le; lia).
  assert (E2 : (36 + Z.of_nat (length pcm) <=? 4294967295) = true) by (apply Z.leb_le; lia).
  unfold pcm16ToWav8kMono. cbv zeta.
  rewrite (writeUInt32LE_ok _ (36 + Z.of_nat (length pcm)) 4) by
    (try lia; unfold writeStr, putBytes, alloc; simpl; rewrite ?repeat_length; lia).
  unfold alloc, writeStr, copyInto, putBytes, ascii_bytes.
  simpl.
  rewrite (writeUInt32LE_ok _ (Z.of_nat (length pcm)) 40) by
    (try lia; simpl; rewrite ?repeat_length; lia).
  simpl. rewrite drop_0, repeat_length, Nat.sub_0_r, firstn_all.
  rewrite drop_ge by (rewrite repeat_length; lia).
  rewrite app_nil_r. reflexivity.
Qed.

(** X7. For any PCM buffer whose size fits the 32-bit header fields, [pcm16ToWav8kMono] produces a 44-byte RIFF/WAVE header (PCM format 1, mono, 8000 Hz, byte rate 16000, block align 2, 16 bits, RIFF size [36 + n], data size [n]) followed by the PCM bytes unchanged. *)
Theorem pcm16ToWav8kMono_header (pcm : list Z) :
  Z.of_nat (length pcm) <= 4294967259 ->
  exists w, pcm16ToWav8kMono pcm = Some w /\ length w = (44 + length pcm)%nat
  /\ readTag w 0 = ascii_bytes "RIFF" /\ readUInt32LE w 4 = 36 + Z.of_nat (length pcm)
  /\ readTag w 8 = ascii_bytes "WAVE" /\ readTag w 12 = ascii_bytes "fmt "
  /\ readUInt32LE w 16 = 16 /\ readUInt16LE w 20 = 1 /\ readUInt16LE w 22 = 1
  /\ readUInt32LE w 24 = 8000 /\ readUInt32LE w 28 = 16000
  /\ readUInt16LE w 32 = 2 /\ readUInt16LE w 34 = 16
  /\ readTag w 36 = ascii_bytes "data" /\ readUInt32LE w 40 = Z.of_nat (length pcm)
  /\ drop 44 w = pcm.
Proof.
  intros H. eexists. split; [exact (wav_eq pcm H)|].
  split_and!; try reflexivity.
  all: unfold readUInt32LE; simpl; apply le32_sum; lia.
Qed.

Lemma pcm16ToWav8kMono_header_witness :
  Z.of_nat (length [1; 2; 3]) <= 4294967259
  /\ (exists w, pcm16ToWav8kMono [1; 2; 3] = Some w /\ length w = (44 + length [1; 2; 3])%nat
  /\ readTag w 0 = ascii_bytes "RIFF" /\ readUInt32LE w 4 = 36 + Z.of_nat (length [1; 2; 3])
  /\ readTag w 8 = ascii_bytes "WAVE" /\ readTag w 12 = ascii_bytes "fmt "
  /\ readUInt32LE w 16 = 16 /\ readUInt16LE w 20 = 1 /\ readUInt16LE w 22 = 1
  /\ readUInt32LE w 24 = 8000 /\ readUInt32LE w 28 = 16000
  /\ readUInt16LE w 32 = 2 /\ readUInt16LE w 34 = 16
  /\ readTag w 36 = ascii_bytes "data" /\ readUInt32LE w 40 = Z.of_nat (length [1; 2; 3])
  /\ drop 44 w = [1; 2; 3]).
Proof.
  assert (H : Z.of_nat (length [1; 2; 3]) <= 4294967259) by (simpl; lia).
  exact (conj H (pcm16ToWav8kMono_header [1; 2; 3] H)).
Defined.


(* ------------------------------------------------------------------ *)
(** *** /call-me and chatReply *)

Lemma e164_prefix (l : list ascii) :
  String.list_ascii_of_string
    (let s := String.string_of_list_ascii l in
     if String.prefix "+" s then s else String plus_char s)
  = match l with c :: _ => if Ascii.eqb c plus_char then l else plus_char :: l
                | [] => [plus_char] end.
Proof.
  destruct l as [|c r]; [reflexivity|]. cbv zeta. cbn [String.string_of_list_ascii].
  destruct (ascii_dec "+" c) as [<-|Hne].
  - replace (String.prefix "+" (String "+" (String.string_of_list_ascii r))) with true
      by (cbn [String.prefix]; destruct (String.string_of_list_ascii r); reflexivity).
    cbn [String.list_ascii_of_string]. rewrite String.list_ascii_of_string_of_list_ascii.
    reflexivity.
  - replace (Ascii.eqb c plus_char) with false
      by (symmetry; apply Ascii.eqb_neq; intros ->; apply Hne; reflexivity).
    replace (String.prefix "+" (String c (String.string_of_list_ascii r))) with false
      by (cbn [String.prefix]; destruct (ascii_dec "+" c); [contradiction|reflexivity]).
    cbn [String.list_ascii_of_string]. rewrite String.list_ascii_of_string_of_list_ascii.
    reflexivity.
Qed.

Lemma toE164_chars (num : option string) :
  String.list_ascii_of_string (toE164 num)
  = let cs := List.filter (fun c => is_digit c || Ascii.eqb c plus_char)
              (String.list_ascii_of_string (match num with Some t => t | None => ""%string end)) in
    match cs with c :: _ => if Ascii.eqb c plus_char then cs else plus_char :: cs
                  | [] => [plus_char] end.
Proof. unfold toE164. apply e164_prefix. Qed.






Lemma forallb_digits (l : list ascii) :
  forallb is_digit l = true <-> Forall (fun c => is_digit c = true) l.
Proof.
  induction l as [|c l IH]; [split; [constructor|reflexivity]|].
  cbn [forallb]. rewrite andb_true_iff, IH. split.
  - intros [H1 H2]. constructor; assumption.
  - intros Hf. apply Forall_cons in Hf. exact Hf.
Qed.

Lemma validE164_chars (t : string) (ds : list ascii) :
  String.list_ascii_of_string t = plus_char :: ds ->
  validE164 t = true <-> Forall (fun c => is_digit c = true) ds /\ (10 <= length ds <= 15)%nat.
Proof.
  intros Ht. unfold validE164. rewrite Ht. cbn [Ascii.eqb plus_char].
  replace (Ascii.eqb "+" "+") with true by reflexivity. cbn [andb].
  rewrite !andb_true_iff, forallb_digits, !Nat.leb_le. tauto.
Qed.

(** X9. The secret of /call-me is never empty (an empty or unset variable falls back to "changeme"), so a request is rejected as unauthorized exactly when its secret differs from it; a call is placed only to [toE164(to)] and only when that matches [^\+\d{10,15}$]. *)
Theorem callMe_guard (env secret to : option string) :
  CALL_ME_SECRET env <> ""%string
  /\ (callMe env secret to = CallMeUnauthorized <-> secret <> Some (CALL_ME_SECRET env))
  /\ (forall t, callMe env secret to = CallMePlace t -> t = toE164 to /\ validE164 t = true).
Proof.
  assert (Hk : CALL_ME_SECRET env <> ""%string).
  { unfold CALL_ME_SECRET. destruct env as [s|]; [|discriminate].
    destruct (String.eqb s "") eqn:E; [discriminate|]. apply String.eqb_neq in E. exact E. }
  assert (Hk' : String.eqb (CALL_ME_SECRET env) "" = false) by (apply String.eqb_neq; exact Hk).
  unfold callMe. rewrite Hk'. cbn [negb andb].
  split_and!; [exact Hk | |].
  - destruct (bool_decide (secret = Some (CALL_ME_SECRET env))) eqn:Eb;
      [apply bool_decide_eq_true in Eb | apply bool_decide_eq_false in Eb]; cbn [negb].
    + split; [|tauto]. destruct (validE164 (toE164 to)); discriminate.
    + tauto.
  - intros t. destruct (bool_decide _); cbn [negb]; [|discriminate].
    destruct (validE164 (toE164 to)) eqn:Ev; cbn [negb]; [|discriminate].
    intros [= <-]. split; [reflexivity | exact Ev].
Qed.

(** X10. With the right secret, /call-me places the call exactly when the digits and '+' signs of [to] are 10 to 15 digits, optionally preceded by one '+'; otherwise it answers 400. *)
Theorem callMe_number_accepted (env to : option string) :
  let cs := List.filter (fun c => is_digit c || Ascii.eqb c plus_char)
              (String.list_ascii_of_string (match to with Some t => t | None => ""%string end)) in
  (callMe env (Some (CALL_ME_SECRET env)) to = CallMePlace (toE164 to)
   <-> exists ds, (cs = ds \/ cs = plus_char :: ds)
                  /\ Forall (fun c => is_digit c = true) ds /\ (10 <= length ds <= 15)%nat)
  /\ (callMe env (Some (CALL_ME_SECRET env)) to = CallMePlace (toE164 to)
      \/ callMe env (Some (CALL_ME_SECRET env)) to = CallMeInvalid).
Proof.
  intros cs.
  assert (Hv : validE164 (toE164 to) = true <->
     exists ds, (cs = ds \/ cs = plus_char :: ds)
                /\ Forall (fun c => is_digit c = true) ds /\ (10 <= length ds <= 15)%nat).
  { pose proof (toE164_chars to) as Hc. cbv zeta in Hc. fold cs in Hc.
    destruct cs as [|c r] eqn:Ec.
    - rewrite (validE164_chars _ [] Hc). split; [simpl; lia|].
      intros (ds & [<- | [=]] & _ & Hl). simpl in Hl. lia.
    - destruct (Ascii.eqb c plus_char) eqn:Eq.
      + apply Ascii.eqb_eq in Eq. subst c.
        rewrite (validE164_chars _ r Hc). split.
        * intros [Hd Hl]. exists r. split; [right; reflexivity | split; [exact Hd | exact Hl]].
        * intros (ds & [<- | [= <-]] & Hd & Hl); [|split; assumption].
          apply Forall_cons in Hd as [Hp _]. discriminate.
      + rewrite (validE164_chars _ (c :: r) Hc). split.
        * intros [Hd Hl]. exists (c :: r). split; [left; reflexivity | split; [exact Hd | exact Hl]].
        * intros (ds & [<- | [= Hc0 _]] & Hd & Hl); [split; assumption|].
          subst c. discriminate. }
  unfold callMe.
  replace (negb (String.eqb (CALL_ME_SECRET env) "") &&
           negb (bool_decide (Some (CALL_ME_SECRET env) = Some (CALL_ME_SECRET env))))
    with false by (rewrite bool_decide_eq_true_2 by reflexivity; symmetry; apply andb_false_r).
  rewrite <- Hv.
  destruct (validE164 (toE164 to)); cbn [negb]; split.
  - tauto.
  - left; reflexivity.
  - split; [discriminate | intros [=]].
  - right; reflexivity.
Qed.

Lemma trimStart_idem (s : list Z) : trimStart (trimStart s) = trimStart s.
Proof.
  induction s as [|u s IH]; [reflexivity|]. cbn [trimStart].
  destruct (is_js_space u) eqn:E; [exact IH|]. cbn [trimStart]. rewrite E. reflexivity.
Qed.

Lemma trimStart_snoc (l : list Z) (x : Z) :
  is_js_space x = false -> trimStart (l ++ [x]) = trimStart l ++ [x].
Proof.
  intros Hx. induction l as [|u l IH]; cbn [app trimStart].
  - rewrite Hx. reflexivity.
  - destruct (is_js_space u); [exact IH | reflexivity].
Qed.

Lemma trimEnd_cons (x : Z) (r : list Z) :
  is_js_space x = false -> trimEnd (x :: r) = x :: trimEnd r.
Proof.
  intros Hx. unfold trimEnd. cbn [rev]. rewrite trimStart_snoc by exact Hx.
  rewrite rev_app_distr. reflexivity.
Qed.

Lemma trimStart_head (s : list Z) :
  trimStart s = [] \/ exists x r, trimStart s = x :: r /\ is_js_space x = false.
Proof.
  induction s as [|u s IH]; [left; reflexivity|]. cbn [trimStart].
  destruct (is_js_space u) eqn:E; [exact IH|]. right. eauto.
Qed.

Lemma trim_idem (s : list Z) : trim (trim s) = trim s.
Proof.
  unfold trim. destruct (trimStart_head s) as [H | (x & r & H & Hx)].
  - rewrite H. reflexivity.
  - rewrite H, trimEnd_cons by exact Hx. cbn [trimStart]. rewrite Hx.
    rewrite trimEnd_cons by exact Hx. f_equal. unfold trimEnd.
    rewrite rev_involutive, trimStart_idem. reflexivity.
Qed.

(** X11. The text of [chatReply] is never empty and has no leading or trailing white space: it is the trimmed model output, or the fixed fallback when that is empty or missing. *)
Theorem chatReplyText_trimmed (content : option (list Z)) :
  chatReplyText content <> []
  /\ trim (chatReplyText content) = chatReplyText content
  /\ (chatReplyText content = trim (match content with Some c => c | None => [] end)
      \/ (trim (match content with Some c => c | None => [] end) = []
          /\ chatReplyText content = CHAT_FALLBACK_U16)).
Proof.
  unfold chatReplyText.
  destruct (trim (match content with Some c => c | None => [] end)) as [|u r] eqn:E.
  - split_and!; [discriminate | vm_compute; reflexivity | right; split; reflexivity].
  - split_and!; [discriminate | rewrite <- E; apply trim_idem | left; reflexivity].
Qed.

(* ------------------------------------------------------------------ *)
(** *** Invariants of a connection *)

Lemma winv_init : winv initWorld.
Proof.
  constructor; simpl.
  - intros o s H. rewrite lookup_empty in H. discriminate.
  - intros id o H. rewrite lookup_empty in H. discriminate.
  - constructor.
Qed.

Lemma winv_emit (c : call) (w : world) : winv w -> good_call c -> winv (emit c w).
Proof.
  intros [Hh Ht Hl] Hc. constructor; [exact Hh | exact Ht |].
  simpl. apply Forall_app; split; [exact Hl | constructor; [exact Hc | constructor]].
Qed.

Lemma winv_tasks (ts : list task) (w : world) : winv w -> winv (w_tasks ts w).
Proof. intros [Hh Ht Hl]. constructor; assumption. Qed.

Lemma winv_spawn (t : task) (w : world) : winv w -> winv (spawn t w).
Proof. apply winv_tasks. Qed.

Lemma winv_clear (id : nat) (w : world) : winv w -> winv (clearTimeout id w).
Proof.
  intros [Hh Ht Hl]. constructor; [exact Hh | | exact Hl]. simpl.
  intros id' o H. apply lookup_delete_Some in H as [_ H]. exact (Ht id' o H).
Qed.

Lemma winv_upd (o : nat) (f : session -> session) (w : world) :
  winv w ->
  (forall s, heap w !! o = Some s -> sess_ok (f s)
     /\ forall id, timers w !! id = Some o -> nudgeTimer (f s) = Some id) ->
  winv (updSession o f w).
Proof.
  intros [Hh Ht Hl] Hf. unfold updSession.
  destruct (heap w !! o) as [s|] eqn:Eo; [|constructor; assumption].
  destruct (Hf s eq_refl) as [Hok Hn].
  constructor; simpl; [| |exact Hl].
  - intros o' s' H'. destruct (decide (o' = o)) as [->|Hne].
    + rewrite lookup_insert_eq in H'. injection H' as <-. split; [apply (Hh o s Eo)|exact Hok].
    + rewrite lookup_insert_ne in H' by congruence. apply (Hh o' s' H').
  - intros id o' H'. destruct (Ht id o' H') as [Hid (s' & Hs' & Hn')]. split; [exact Hid|].
    destruct (decide (o' = o)) as [->|Hne].
    + exists (f s). rewrite lookup_insert_eq. split; [reflexivity|]. exact (Hn id H').
    + exists s'. rewrite lookup_insert_ne by congruence. split; assumption.
Qed.

(** Field updates that keep the turn buffer, the speech flag and the nudge handle. *)
Lemma winv_upd_keep (o : nat) (f : session -> session) (w : world) :
  winv w ->
  (forall s, pcmBuffer (f s) = pcmBuffer s /\ heardAnySpeech (f s) = heardAnySpeech s
             /\ nudgeTimer (f s) = nudgeTimer s) ->
  winv (updSession o f w).
Proof.
  intros Hw Hf. apply winv_upd; [exact Hw|]. intros s Hs.
  destruct (Hf s) as (Hb & Hh & Hn). split.
  - unfold sess_ok. rewrite Hb, Hh. apply (inv_heap w Hw o s Hs).
  - intros id Hid. destruct (inv_timers w Hw id o Hid) as [_ (s' & Hs' & Hn')].
    rewrite Hs in Hs'. injection Hs' as <-. rewrite Hn. exact Hn'.
Qed.

Lemma winv_scheduleNudge (o : nat) (w : world) : winv w -> winv (scheduleNudge o w).
Proof.
  intros Hw. unfold scheduleNudge.
  destruct (heap w !! o) as [s|] eqn:Eo; [|exact Hw].
  set (w1 := match nudgeTimer s with Some id => clearTimeout id w | None => w end).
  assert (Hw1 : winv w1) by (unfold w1; destruct (nudgeTimer s); [apply winv_clear|]; exact Hw).
  assert (E1 : heap w1 = heap w /\ nextObj w1 = nextObj w /\ nextTimer w1 = nextTimer w
               /\ log w1 = log w)
    by (unfold w1; destruct (nudgeTimer s); split_and!; reflexivity).
  destruct E1 as (Eh & En & Et & El).
  (* no pending timer of w1 belongs to o *)
  assert (Hno : forall id, timers w1 !! id <> Some o).
  { intros id Hid. destruct (inv_timers w1 Hw1 id o Hid) as [_ (s' & Hs' & Hn')].
    rewrite Eh, Eo in Hs'. injection Hs' as <-.
    unfold w1 in Hid. rewrite Hn' in Hid. simpl in Hid. rewrite lookup_delete_eq in Hid.
    discriminate. }
  clearbody w1.
  unfold updSession. simpl. rewrite Eh, Eo.
  constructor; simpl.
  - intros o' s' H'. destruct (decide (o' = o)) as [->|Hne].
    + rewrite lookup_insert_eq in H'. injection H' as <-.
      split; [rewrite En; exact (proj1 (inv_heap w Hw o s Eo)) | exact (proj2 (inv_heap w Hw o s Eo))].
    + rewrite lookup_insert_ne in H' by congruence.
      apply (inv_heap w1 Hw1 o'). rewrite Eh. exact H'.
  - intros id o' H'. destruct (decide (id = nextTimer w1)) as [->|Hne].
    + rewrite lookup_insert_eq in H'. injection H' as <-. split; [lia|].
      exists (with_nudge (Some (nextTimer w1)) s). rewrite lookup_insert_eq. split; reflexivity.
    + rewrite lookup_insert_ne in H' by congruence.
      destruct (inv_timers w1 Hw1 id o' H') as [Hid (s' & Hs' & Hn')]. split; [lia|].
      destruct (decide (o' = o)) as [->|Ho]; [exfalso; exact (Hno id H')|].
      exists s'. rewrite lookup_insert_ne by congruence. rewrite <- Eh. split; assumption.
  - rewrite El. exact (inv_log w Hw).
Qed.

Lemma keep_listening (b : bool) (s : session) :
  pcmBuffer (with_listening b s) = pcmBuffer s /\ heardAnySpeech (with_listening b s) = heardAnySpeech s
  /\ nudgeTimer (with_listening b s) = nudgeTimer s.
Proof. split_and!; reflexivity. Qed.

Lemma keep_push (r : role) (t : string) (s : session) :
  pcmBuffer (pushContext r t s) = pcmBuffer s /\ heardAnySpeech (pushContext r t s) = heardAnySpeech s
  /\ nudgeTimer (pushContext r t s) = nudgeTimer s.
Proof. split_and!; reflexivity. Qed.

Lemma winv_speakText (o : nat) (t : string) (k : after_speak) (w : world) :
  winv w -> winv (speakText o t k w).
Proof.
  intros Hw. unfold speakText. apply winv_spawn, winv_emit; [|exact I].
  apply winv_upd_keep; [exact Hw | apply keep_listening].
Qed.

Lemma winv_finishSpeak (o : nat) (k : after_speak) (w : world) :
  winv w -> winv (finishSpeak o k w).
Proof.
  intros Hw. unfold finishSpeak.
  assert (H1 : winv (scheduleNudge o (updSession o (with_listening true) w))).
  { apply winv_scheduleNudge, winv_upd_keep; [exact Hw | apply keep_listening]. }
  destruct k; [apply winv_upd_keep; [exact H1 | apply keep_push] | exact H1].
Qed.

Lemma winv_sendNext (o : nat) (k : after_speak) (buf : list Z) (off : nat) (w : world) :
  winv w -> winv (sendNext o k buf off w).
Proof.
  intros Hw. unfold sendNext. destruct (heap w !! o); [|exact Hw].
  destruct (sendFrameAt _ _ _ _); [apply winv_spawn, winv_emit; [exact Hw | exact I]|].
  apply winv_finishSpeak, Hw.
Qed.

Lemma winv_onSynth (o : nat) (k : after_speak) (r : option (list Z)) (w : world) :
  winv w -> winv (onSynth o k r w).
Proof.
  intros Hw. unfold onSynth. destruct r as [pcm|]; [|apply winv_finishSpeak, Hw].
  destruct (encodePcm16ToMulaw pcm); [apply winv_sendNext, Hw | apply winv_finishSpeak, Hw].
Qed.

Lemma concat_nonempty (l : list (list Z)) :
  Exists (fun f => f <> []) l -> concat l <> [].
Proof.
  induction 1 as [f l Hf | f l _ IH]; simpl; intros Hc;
    apply app_eq_nil in Hc as [H1 H2]; [exact (Hf H1) | exact (IH H2)].
Qed.

Lemma winv_finalizeTurn (o : nat) (w : world) :
  winv w ->
  (forall s, heap w !! o = Some s -> heardAnySpeech s = false
             /\ Exists (fun f => f <> []) (pcmBuffer s)) ->
  winv (finalizeTurn o w).
Proof.
  intros Hw Ho. unfold finalizeTurn.
  destruct (heap w !! o) as [s|] eqn:Eo; [|exact Hw].
  destruct (Ho s eq_refl) as [Hh He].
  destruct (pcmBuffer s) as [|f fs] eqn:Eb; [exact Hw|].
  apply winv_spawn, winv_emit.
  - apply winv_upd; [exact Hw|]. intros s' Hs'. rewrite Eo in Hs'. injection Hs' as <-.
    split; [unfold sess_ok; simpl; congruence|].
    intros id Hid. destruct (inv_timers w Hw id o Hid) as [_ (s1 & Hs1 & Hn1)].
    rewrite Eo in Hs1. injection Hs1 as <-. exact Hn1.
  - unfold good_call. apply concat_nonempty, He.
Qed.

Lemma winv_onSTT (o : nat) (r : option string) (w : world) :
  winv w -> winv (onSTT o r w).
Proof.
  intros Hw. unfold onSTT.
  destruct (String.eqb _ "") eqn:Ee; [exact Hw|].
  apply String.eqb_neq in Ee.
  assert (H1 : winv (updSession o (pushContext RoleUser (match r with Some t => t | None => ""%string end)) w))
    by (apply winv_upd_keep; [exact Hw | apply keep_push]).
  destruct (heap (updSession o _ w) !! o) as [s|] eqn:Es; [|exact H1].
  apply winv_spawn, winv_emit; [exact H1|]. split; [exact Ee|].
  unfold updSession in Es. destruct (heap w !! o) as [s0|] eqn:E0; [|congruence].
  simpl in Es. rewrite lookup_insert_eq in Es. injection Es as <-.
  exists (context s0). reflexivity.
Qed.

Lemma winv_onChat (o : nat) (r : option string) (w : world) :
  winv w -> winv (onChat o r w).
Proof.
  intros Hw. unfold onChat. apply winv_speakText, winv_upd_keep; [exact Hw | apply keep_push].
Qed.

Lemma classify_speech_nonempty (pcm : list Z) (e : rms_value) :
  classify pcm = Some (true, e) -> pcm <> [].
Proof. intros H ->. discriminate H. Qed.

Lemma winv_onMedia (mu : list Z) (w : world) : winv w -> winv (onMedia mu w).
Proof.
  intros Hw. unfold onMedia.
  destruct (stateVar w) as [o|]; [|exact Hw].
  destruct (heap w !! o) as [s|] eqn:Eo; [|exact Hw].
  destruct (negb (listening s)); [exact Hw|].
  destruct (decodeMulawToPcm16 mu) as [pcm|]; [|apply winv_emit; [exact Hw | exact I]].
  pose proof (proj2 (inv_heap w Hw o s Eo)) as Hok.
  assert (Hgrow : sess_ok (with_buffer (pcmBuffer s ++ [pcm]) s)).
  { unfold sess_ok in *. simpl. intros Hh. apply Exists_app. left. exact (Hok Hh). }
  assert (Htm : forall id, timers w !! id = Some o -> nudgeTimer s = Some id).
  { intros id Hid. destruct (inv_timers w Hw id o Hid) as [_ (s' & Hs' & Hn')].
    rewrite Eo in Hs'. injection Hs' as <-. exact Hn'. }
  destruct (classify pcm) as [[isSpeech e]|] eqn:Ec.
  2: { apply winv_emit; [|exact I]. apply winv_upd; [exact Hw|].
       intros s' Hs'. rewrite Eo in Hs'. injection Hs' as <-. split; [exact Hgrow | exact Htm]. }
  destruct isSpeech.
  - assert (Hsp : sess_ok (with_silence 0 (with_heard true (with_buffer (pcmBuffer s ++ [pcm]) s)))).
    { unfold sess_ok. simpl. intros _. apply Exists_app. right. constructor.
      exact (classify_speech_nonempty pcm e Ec). }
    destruct (nudgeTimer _) as [id|] eqn:En.
    + apply winv_upd; [apply winv_clear, Hw|]. intros s' Hs'.
      simpl in Hs'. rewrite Eo in Hs'. injection Hs' as <-. split; [exact Hsp|].
      intros id' Hid'. simpl in Hid'. apply lookup_delete_Some in Hid' as [Hne Hid'].
      apply Htm in Hid'. simpl in En. congruence.
    + apply winv_upd; [exact Hw|]. intros s' Hs'. rewrite Eo in Hs'. injection Hs' as <-.
      split; [exact Hsp|]. intros id Hid. simpl. rewrite En. exact (Htm id Hid).
  - destruct (heardAnySpeech _ && _) eqn:Ef.
    + apply winv_finalizeTurn.
      * apply winv_upd; [exact Hw|]. intros s' Hs'. rewrite Eo in Hs'. injection Hs' as <-.
        split; [unfold sess_ok; simpl; discriminate | exact Htm].
      * intros s' Hs'. unfold updSession in Hs'. rewrite Eo in Hs'. simpl in Hs'.
        rewrite lookup_insert_eq in Hs'. injection Hs' as <-. split; [reflexivity|].
        apply andb_true_iff in Ef as [Eh _]. exact (Hgrow Eh).
    + apply winv_upd; [exact Hw|]. intros s' Hs'. rewrite Eo in Hs'. injection Hs' as <-.
      split; [exact Hgrow | exact Htm].
Qed.

Lemma winv_onStart (sid : string) (cid : option string) (w : world) :
  winv w -> winv (onStart sid cid w).
Proof.
  intros Hw. unfold onStart. apply winv_scheduleNudge.
  constructor; simpl.
  - intros o s H. destruct (decide (o = nextObj w)) as [->|Hne].
    + rewrite lookup_insert_eq in H. injection H as <-. split; [lia|].
      unfold sess_ok. simpl. discriminate.
    + rewrite lookup_insert_ne in H by congruence.
      destruct (inv_heap w Hw o s H) as [Ho Hs]. split; [lia | exact Hs].
  - intros id o H. destruct (inv_timers w Hw id o H) as [Hid (s & Hs & Hn)].
    split; [exact Hid|]. exists s.
    assert (Ho : (o < nextObj w)%nat) by exact (proj1 (inv_heap w Hw o s Hs)).
    rewrite lookup_insert_ne by lia. split; assumption.
  - exact (inv_log w Hw).
Qed.

Lemma winv_onStop (w : world) : winv w -> winv (onStop w).
Proof.
  intros Hw. unfold onStop.
  set (w1 := match stateVar w with
             | Some o => match heap w !! o with
                         | Some s => match nudgeTimer s with Some id => clearTimeout id w | None => w end
                         | None => w end
             | None => w end).
  assert (Hw1 : winv w1).
  { unfold w1. destruct (stateVar w) as [o|]; [|exact Hw].
    destruct (heap w !! o) as [s|]; [|exact Hw].
    destruct (nudgeTimer s); [apply winv_clear, Hw | exact Hw]. }
  clearbody w1. destruct Hw1 as [Hh Ht Hl]. constructor; assumption.
Qed.

Lemma winv_onClose (w : world) : winv w -> winv (onClose w).
Proof. intros [Hh Ht Hl]. constructor; assumption. Qed.

Lemma winv_onFire (id c : nat) (w : world) : winv w -> winv (onFire id c w).
Proof.
  intros Hw. unfold onFire. destruct (timers w !! id) as [o|]; [|exact Hw].
  assert (Hw1 : winv (w_timers (delete id (timers w)) (nextTimer w) w))
    by (apply winv_clear, Hw).
  destruct (heap _ !! o) as [s|]; [|exact Hw1].
  destruct (negb (listening s)); [exact Hw1|]. apply winv_speakText, Hw1.
Qed.

Lemma winv_onResume (i : nat) (r : result) (w : world) : winv w -> winv (onResume i r w).
Proof.
  intros Hw. unfold onResume. destruct (tasks w !! i) as [t|]; [|exact Hw].
  assert (Hw1 : winv (w_tasks (delete i (tasks w)) w)) by (apply winv_tasks, Hw).
  destruct t, r; try exact Hw.
  - apply winv_onSTT, Hw1.
  - apply winv_onChat, Hw1.
  - apply winv_onSynth, Hw1.
  - apply winv_sendNext, Hw1.
Qed.

Lemma winv_step (e : event) (w : world) : winv w -> winv (step e w).
Proof.
  intros Hw. destruct e; simpl.
  - apply winv_onStart, Hw.
  - apply winv_onMedia, Hw.
  - apply winv_onStop, Hw.
  - exact Hw.
  - apply winv_onClose, Hw.
  - apply winv_onFire, Hw.
  - apply winv_onResume, Hw.
Qed.

Lemma winv_run (es : list event) : forall w, winv w -> winv (run es w).
Proof.
  induction es as [|e es IH]; intros w Hw; [exact Hw|].
  rewrite run_cons. apply IH, winv_step, Hw.
Qed.

(** X12. On every connection, whatever the events, [transcribeWhisper] is never called with empty audio. *)
Theorem whisper_never_empty (es : list event) :
  Forall (fun c => forall pcm, c = CallSTT pcm -> pcm <> []) (log (run es initWorld)).
Proof.
  pose proof (inv_log _ (winv_run es initWorld winv_init)) as H.
  eapply Forall_impl; [exact H|]. intros c Hc pcm ->. exact Hc.
Qed.

(** X13. Every [chatReply] request carries a non-empty user text, and the context it is given already ends with that same text as a user message. *)
Theorem chat_request_ends_with_utterance (es : list event) (ctx : list (role * string)) (t : string) :
  In (CallChat ctx t) (log (run es initWorld)) ->
  t <> ""%string /\ exists pre, ctx = pre ++ [(RoleUser, t)].
Proof.
  intros Hin. pose proof (inv_log _ (winv_run es initWorld winv_init)) as H.
  rewrite List.Forall_forall in H. exact (H _ Hin).
Qed.

(** X14. On every connection, each pending nudge timer is the one recorded in its session's [nudgeTimer], so a session never has two pending nudges. *)
Theorem nudge_timer_unique (es : list event) (id o : nat) :
  timers (run es initWorld) !! id = Some o ->
  (exists s, heap (run es initWorld) !! o = Some s /\ nudgeTimer s = Some id)
  /\ forall id', timers (run es initWorld) !! id' = Some o -> id' = id.
Proof.
  intros H. pose proof (winv_run es initWorld winv_init) as Hw.
  destruct (inv_timers _ Hw id o H) as [_ (s & Hs & Hn)].
  split; [exists s; split; assumption|].
  intros id' H'. destruct (inv_timers _ Hw id' o H') as [_ (s' & Hs' & Hn')].
  rewrite Hs in Hs'. injection Hs' as <-. congruence.
Qed.

Lemma quiet_refl (w : world) : quiet_ext w w.
Proof. split; [reflexivity|]. exists []. split; [symmetry; apply app_nil_r | constructor]. Qed.

Lemma quiet_trans (w1 w2 w3 : world) : quiet_ext w1 w2 -> quiet_ext w2 w3 -> quiet_ext w1 w3.
Proof.
  intros [Ho1 (l1 & Hl1 & Hf1)] [Ho2 (l2 & Hl2 & Hf2)]. split; [congruence|].
  exists (l1 ++ l2). split; [rewrite Hl2, Hl1, app_assoc; reflexivity|].
  apply Forall_app; split; assumption.
Qed.

Lemma quiet_emit (c : call) (w w' : world) :
  quiet_ext w w' -> not_send c -> quiet_ext w (emit c w').
Proof.
  intros H Hc. eapply quiet_trans; [exact H|]. split; [reflexivity|].
  exists [c]. split; [reflexivity | repeat constructor; exact Hc].
Qed.

Lemma quiet_same (w w' w'' : world) :
  quiet_ext w w' -> wsOpen w'' = wsOpen w' -> log w'' = log w' -> quiet_ext w w''.
Proof.
  intros H Ho Hl. eapply quiet_trans; [exact H|]. split; [exact Ho|].
  exists []. rewrite app_nil_r. split; [exact Hl | constructor].
Qed.

Lemma quiet_spawn (t : task) (w w' : world) : quiet_ext w w' -> quiet_ext w (spawn t w').
Proof. intros H. eapply quiet_same; [exact H | reflexivity | reflexivity]. Qed.

Lemma quiet_tasks (ts : list task) (w w' : world) : quiet_ext w w' -> quiet_ext w (w_tasks ts w').
Proof. intros H. eapply quiet_same; [exact H | reflexivity | reflexivity]. Qed.

Lemma quiet_upd (o : nat) (f : session -> session) (w w' : world) :
  quiet_ext w w' -> quiet_ext w (updSession o f w').
Proof. intros H. eapply quiet_same; [exact H | |]; unfold updSession; destruct (heap w' !! o); reflexivity. Qed.

Lemma quiet_clear (id : nat) (w w' : world) : quiet_ext w w' -> quiet_ext w (clearTimeout id w').
Proof. intros H. eapply quiet_same; [exact H | reflexivity | reflexivity]. Qed.

Lemma quiet_scheduleNudge (o : nat) (w w' : world) :
  quiet_ext w w' -> quiet_ext w (scheduleNudge o w').
Proof.
  intros H. unfold scheduleNudge. destruct (heap w' !! o) as [s|]; [|exact H].
  apply quiet_upd. eapply quiet_same; [| reflexivity | reflexivity].
  destruct (nudgeTimer s); [apply quiet_clear|]; exact H.
Qed.

Lemma quiet_speakText (o : nat) (t : string) (k : after_speak) (w w' : world) :
  quiet_ext w w' -> quiet_ext w (speakText o t k w').
Proof. intros H. unfold speakText. apply quiet_spawn, quiet_emit; [apply quiet_upd, H | exact I]. Qed.

Lemma quiet_finishSpeak (o : nat) (k : after_speak) (w w' : world) :
  quiet_ext w w' -> quiet_ext w (finishSpeak o k w').
Proof.
  intros H. unfold finishSpeak.
  destruct k; [apply quiet_upd|]; apply quiet_scheduleNudge, quiet_upd, H.
Qed.

Lemma quiet_sendNext (o : nat) (k : after_speak) (buf : list Z) (off : nat) (w w' : world) :
  quiet_ext w w' -> wsOpen w' = false -> quiet_ext w (sendNext o k buf off w').
Proof.
  intros H Hc. unfold sendNext. destruct (heap w' !! o) as [s|]; [|exact H].
  unfold sendFrameAt. rewrite Hc. destruct (Nat.ltb _ _); apply quiet_finishSpeak, H.
Qed.

Lemma quiet_step (e : event) (w : world) :
  wsOpen w = false -> quiet_ext w (step e w).
Proof.
  intros Hc. pose proof (quiet_refl w) as R.
  destruct e as [sid cid|mu| | | |id ch|i r]; simpl.
  - unfold onStart. apply quiet_scheduleNudge. eapply quiet_same; [exact R | reflexivity | reflexivity].
  - unfold onMedia. destruct (stateVar w) as [o|]; [|exact R].
    destruct (heap w !! o) as [s|]; [|exact R].
    destruct (negb (listening s)); [exact R|].
    destruct (decodeMulawToPcm16 mu) as [pcm|]; [|apply quiet_emit; [exact R | exact I]].
    destruct (classify pcm) as [[[|] e]|].
    + destruct (nudgeTimer _); apply quiet_upd; [apply quiet_clear|]; exact R.
    + destruct (_ && _); [|apply quiet_upd, R].
      unfold finalizeTurn. destruct (heap _ !! o) as [s'|]; [|apply quiet_upd, R].
      destruct (pcmBuffer s'); [apply quiet_upd, R|].
      apply quiet_spawn, quiet_emit; [apply quiet_upd, quiet_upd, R | exact I].
    + apply quiet_emit; [apply quiet_upd, R | exact I].
  - unfold onStop. eapply quiet_same; [exact R | |];
      destruct (stateVar w) as [o|]; try reflexivity; destruct (heap w !! o) as [s|]; try reflexivity;
      destruct (nudgeTimer s); reflexivity.
  - exact R.
  - eapply quiet_same; [exact R | exact (eq_sym Hc) | reflexivity].
  - unfold onFire. destruct (timers w !! id) as [o|]; [|exact R].
    assert (H1 : quiet_ext w (w_timers (delete id (timers w)) (nextTimer w) w))
      by (eapply quiet_same; [exact R | reflexivity | reflexivity]).
    destruct (heap _ !! o) as [s|]; [|exact H1].
    destruct (negb (listening s)); [exact H1 | apply quiet_speakText, H1].
  - unfold onResume. destruct (tasks w !! i) as [t|]; [|exact R].
    assert (H1 : quiet_ext w (w_tasks (delete i (tasks w)) w)) by (apply quiet_tasks, R).
    destruct t as [o|o x|o k|o k buf off], r as [x'|a|]; try exact R.
    + unfold onSTT. destruct (String.eqb _ _); [exact H1|].
      destruct (heap _ !! o); [|apply quiet_upd, H1].
      apply quiet_spawn, quiet_emit; [apply quiet_upd, H1 | exact I].
    + unfold onChat. apply quiet_speakText, quiet_upd, H1.
    + unfold onSynth. destruct a as [pcm|]; [|apply quiet_finishSpeak, H1].
      destruct (encodePcm16ToMulaw pcm); [apply quiet_sendNext; [exact H1 | exact Hc] | apply quiet_finishSpeak, H1].
    + unfold onTick. apply quiet_sendNext; [exact H1 | exact Hc].
Qed.

(** X15. Once the socket has closed, no later event (timer, settled TTS, transcription or chat promise, pacing tick) sends another media frame. *)
Theorem no_frame_after_close (es : list event) (w : world) :
  exists l, log (run (EvClose :: es) w) = log w ++ l /\ Forall not_send l.
Proof.
  assert (H : forall es w, wsOpen w = false -> quiet_ext w (run es w)).
  { induction es0 as [|e es0 IH]; intros w0 Hc; [apply quiet_refl|].
    rewrite run_cons. eapply quiet_trans; [apply quiet_step, Hc|].
    apply IH. destruct (quiet_step e w0 Hc) as [Ho _]. congruence. }
  rewrite run_cons. destruct (H es (step EvClose w) eq_refl) as [_ (l & Hl & Hf)].
  exists l. split; [exact Hl | exact Hf].
Qed.

Lemma chat_request_ends_with_utterance_witness :
  In (CallChat [(RoleUser, "hello"%string)] "hello")
     (log (run ([EvStart "MZ1" None; EvMedia [0]] ++ repeat (EvMedia [255]) 12
                ++ [EvResume 0 (RText (Some "hello"%string))]) initWorld))
  /\ ("hello"%string <> ""%string
      /\ exists pre, [(RoleUser, "hello"%string)] = pre ++ [(RoleUser, "hello"%string)]).
Proof.
  assert (H : In (CallChat [(RoleUser, "hello"%string)] "hello")
     (log (run ([EvStart "MZ1" None; EvMedia [0]] ++ repeat (EvMedia [255]) 12
                ++ [EvResume 0 (RText (Some "hello"%string))]) initWorld)))
    by (apply nth_error_In with (n := 1%nat); vm_compute; reflexivity).
  exact (conj H (chat_request_ends_with_utterance _ _ _ H)).
Defined.

Lemma nudge_timer_unique_witness :
  timers (run [EvStart "MZ1" None] initWorld) !! 0%nat = Some 0%nat
  /\ ((exists s, heap (run [EvStart "MZ1" None] initWorld) !! 0%nat = Some s
                 /\ nudgeTimer s = Some 0%nat)
      /\ forall id', timers (run [EvStart "MZ1" None] initWorld) !! id' = Some 0%nat -> id' = 0%nat).
Proof.
  assert (H : timers (run [EvStart "MZ1" None] initWorld) !! 0%nat = Some 0%nat)
    by (vm_compute; reflexivity).
  exact (conj H (nudge_timer_unique _ _ _ H)).
Defined.
